(** * GameEngineSocket: the network entity synchronisation engine

    A shallow embedding of [logic/interpolation] ([lerp], [interpolateState])
    and of the [useNetworkEntity] hook (inbound handler, broadcast interval
    callback, interpolation loop, [setNetworkState]), with the properties of
    the engine proved over it.

    JavaScript numbers are IEEE-754 binary64 values: they are modelled by the
    primitive floats of the prover, whose operations are specified by
    [SpecFloat].  Plain data objects are finite maps from property names to
    values. *)

From Stdlib Require Import ZArith Lia Floats QArith Lqa.
From stdpp Require Import base option list strings gmap.

Local Open Scope string_scope.

(** ** JavaScript values *)

(** What a field of an entity state may hold.  Nested objects are kept as
    their (ordered) property lists; the engine never looks inside them. *)
#[warnings="-register-all"]
Inductive value : Type :=
  | VUndefined
  | VNull
  | VBoolean (b : bool)
  | VNumber (n : float)
  | VString (s : string)
  | VObject (props : list (string * value)).

(** [typeof v === 'number'] *)
Definition typeof_number (v : value) : bool :=
  match v with
  | VNumber _ => true
  | _ => false
  end.

(** An entity state [T extends Record<string, any>]: the own enumerable
    properties of a plain data object, under ordinary property names (the
    accessor name [__proto__] is left out of the model). *)
Abbreviation estate := (gmap string value).

(** [obj[key]]: a property that is absent reads as [undefined]. *)
Definition get (obj : estate) (key : string) : value :=
  default VUndefined (obj !! key).

(** ** logic/interpolation *)

Module Interpolation.

(** [lerp = (start, end, t) => start * (1 - t) + end * t] *)
Definition lerp (start end_ t : float) : float :=
  (start * (1 - t) + end_ * t)%float.

(** The body of the [for (const key in targetState)] loop: one assignment
    to [result[key]]. *)
Definition assign_field (currentState : estate) (t : float)
    (key : string) (target_v : value) (result : estate) : estate :=
  match target_v, get currentState key with
  | VNumber e, VNumber s => <[key := VNumber (lerp s e t)]> result
  | _, _ => <[key := target_v]> result
  end.

(** [interpolateState(currentState, targetState, t)]: the result starts
    as the spread [{ ...currentState }] and every key of [targetState]
    is then assigned. *)
Definition interpolateState (currentState targetState : estate) (t : float)
    : estate :=
  map_fold (assign_field currentState t) currentState targetState.

End Interpolation.

Import Interpolation.

(** ** hooks/useNetworkEntity *)

(** A slot typed [T] (or [T | null]) as it is at run time: the object it
    should hold, or [null]/[undefined] when nothing was put there. *)
Inductive tval : Type :=
  | TUndefined
  | TNull
  | TObject (o : estate).

(** JavaScript truthiness of such a slot. *)
Definition truthy (v : tval) : bool :=
  match v with
  | TObject _ => true
  | _ => false
  end.

(** Exceptions the engine's code can raise. *)
Inductive error : Type := TypeError.

(** The outcome of running a callback: it returns, or an exception
    propagates to its caller. *)
Inductive outcome (A : Type) : Type :=
  | Returns (a : A)
  | Throws (e : error).
Arguments Returns {A} a.
Arguments Throws {A} e.

Definition obind {A B} (m : outcome A) (k : A → outcome B) : outcome B :=
  match m with
  | Returns a => k a
  | Throws e => Throws e
  end.

Notation "x ←! m ; k" := (obind m (λ x, k))
  (at level 20, m at level 100, k at level 200, only parsing).

(** [interpolateState] as the interpolation loop calls it, on whatever the
    refs hold.  Spreading [null]/[undefined] gives [{}], [for ... in] over
    them runs no iteration, and reading a property of them is a TypeError
    (reached as soon as a numeric field of the target is met). *)
Definition interpolateState_rt (currentState targetState : tval) (t : float)
    : outcome tval :=
  match targetState, currentState with
  | TObject tgt, TObject cur => Returns (TObject (interpolateState cur tgt t))
  | TObject tgt, _ =>
      if map_fold (λ _ v found, typeof_number v || found) false tgt
      then Throws TypeError
      else Returns (TObject tgt)
  | _, TObject cur => Returns (TObject cur)
  | _, _ => Returns (TObject ∅)
  end.

(** [UseNetworkEntityOptions<T>] *)
Record options : Type := mkOptions {
  entityId : string;
  initialState : estate;
  isOwner : bool;
  broadcastRate : float;
  enableInterpolation : bool
}.

(** The defaults of the destructured parameter. *)
Definition defaultOptions (entityId : string) (initialState : estate) : options :=
  mkOptions entityId initialState false 100%float true.

(** What [useGameSocket()] provides to the hook; [client] is the singleton
    and is never null. *)
Record GameSocket : Type := mkGameSocket {
  currentRoom : option string;   (* [currentRoom.roomId], or null *)
  isConnected : bool
}.

(** The React state and the four refs of one binding. *)
Record hook : Type := mkHook {
  state : tval;               (* [useState<T>(initialState)]      *)
  targetStateRef : tval;      (* [useRef<T>(initialState)]        *)
  lastStateRef : tval;        (* [useRef<T>(initialState)]        *)
  lastUpdateTsRef : float;    (* [useRef<number>(Date.now())]     *)
  pendingUpdateRef : tval     (* [useRef<T | null>(null)]         *)
}.

(** The binding right after the first render, [now] being [Date.now()]. *)
Definition mount (o : options) (now : float) : hook :=
  mkHook (TObject (initialState o)) (TObject (initialState o))
         (TObject (initialState o)) now TNull.

(** [setState(v)] with a plain value [v]: the state cell as the next
    render shows it. *)
Definition setState (h : hook) (v : tval) : hook :=
  mkHook v (targetStateRef h) (lastStateRef h) (lastUpdateTsRef h)
         (pendingUpdateRef h).

(** The payload [{ entityId, state }] as it arrives: a property that is
    missing (or is no string) reads as [None] for [entityId], and a missing
    [state] reads as [TUndefined]. *)
Record EntityPayload : Type := mkPayload {
  p_entityId : option string;
  p_state : tval
}.

(** [CustomEvent<{ entityId, state }>], the envelope of the transport;
    the handler reads [event] and [payload] only.  [payload = None] is an
    envelope without payload. *)
Record CustomEvent : Type := mkEvent {
  event : string;
  payload : option EntityPayload
}.

(** [onEntityUpdate(data)], subscribed to ['entity:update']; [now] is the
    value [Date.now()] returns inside it. *)
Definition onEntityUpdate (o : options) (now : float) (h : hook)
    (data : CustomEvent) : outcome hook :=
  if bool_decide (event data = "entity:update") then
    match payload data with
    | None => Throws TypeError           (* [data.payload.entityId] *)
    | Some p =>
        if bool_decide (p_entityId p = Some (entityId o)) then
          if negb (isOwner o) then
            if enableInterpolation o then
              Returns (mkHook (state h) (p_state p) (state h) now
                              (pendingUpdateRef h))
            else
              Returns (setState h (p_state p))
          else Returns h
        else Returns h
    end
  else Returns h.

(** An inbound ['entity:update'] event carrying [{ entityId, state }]. *)
Definition entityUpdate (id : option string) (st : tval) : CustomEvent :=
  mkEvent "entity:update" (Some (mkPayload id st)).

(** The first effect subscribes the handler only when a room is joined. *)
Definition subscribed (g : GameSocket) : bool :=
  bool_decide (is_Some (currentRoom g)).

(** The binding after the transport dispatched the event [ev] (with its
    arrival time): the handler runs if it is subscribed; an exception is
    thrown before any assignment and goes to the transport's dispatcher,
    the binding stays as it was. *)
Definition receive (o : options) (g : GameSocket) (h : hook)
    (ev : float * CustomEvent) : hook :=
  if subscribed g then
    match onEntityUpdate o ev.1 h ev.2 with
    | Returns h' => h'
    | Throws _ => h
    end
  else h.

(** [notifyListeners(event, data)]: [forEach(cb => cb(data))] over the
    handlers of the bindings subscribed to the event; an exception thrown
    by one of them ends the iteration. *)
Fixpoint notifyListeners (now : float) (data : CustomEvent)
    (bindings : list (options * hook)) : outcome (list (options * hook)) :=
  match bindings with
  | [] => Returns []
  | (o, h) :: rest =>
      h' ←! onEntityUpdate o now h data;
      rest' ←! notifyListeners now data rest;
      Returns ((o, h') :: rest')
  end.

(** A message handed to [client.emitToRoom(roomId, event, payload)]. *)
Record message : Type := mkMessage {
  m_roomId : string;
  m_event : string;
  m_entityId : string;
  m_state : tval
}.

(** The second effect starts the interval only for a connected Owner in a
    room; the result is the room it emits to. *)
Definition broadcasting (o : options) (g : GameSocket) : option string :=
  if isOwner o && isConnected g then currentRoom g else None.

(** The callback of [setInterval(..., broadcastRate)]. *)
Definition broadcastTick (o : options) (roomId : string) (h : hook)
    : hook * list message :=
  if truthy (pendingUpdateRef h) then
    (mkHook (state h) (targetStateRef h) (lastStateRef h) (lastUpdateTsRef h)
            TNull,
     [mkMessage roomId "entity:update" (entityId o) (pendingUpdateRef h)])
  else (h, []).

(** The third effect runs the loop only for an Observer that interpolates. *)
Definition animating (o : options) : bool :=
  negb (isOwner o) && enableInterpolation o.

(** [animate()], the body of one animation frame at time [now]. *)
Definition animate (o : options) (now : float) (h : hook) : outcome hook :=
  let timeSinceUpdate := (now - lastUpdateTsRef h)%float in
  let buffer := (broadcastRate o * 1.5)%float in
  let t := (timeSinceUpdate / buffer)%float in
  let t := if (1 <? t)%float then 1%float else t in
  if (t <? 1)%float then
    newState ←! interpolateState_rt (lastStateRef h) (targetStateRef h) t;
    Returns (setState h newState)
  else
    Returns (setState h (targetStateRef h)).

(** Successive animation frames at the given times. *)
Fixpoint animateAll (o : options) (times : list float) (h : hook)
    : outcome hook :=
  match times with
  | [] => Returns h
  | now :: rest => h' ←! animate o now h; animateAll o rest h'
  end.

(** The argument [newState: T | ((prev: T) => T)] of [setNetworkState]:
    a new state or an updater. *)
Inductive SetStateAction : Type :=
  | NewValue (s : estate)
  | Updater (f : tval → estate).

(** [typeof newState === 'function' ? newState(prev) : newState] *)
Definition resolve (newState : SetStateAction) (prev : tval) : estate :=
  match newState with
  | NewValue s => s
  | Updater f => f prev
  end.

(** The function [(prev) => { ... }] that [setNetworkState] hands to
    [setState], run on the binding whose state cell holds [prev]: it
    resolves [newState], an Owner's stores the value in [pendingUpdateRef],
    and the value it returns becomes the state.  React runs it when it
    next renders the component, not inside the call. *)
Definition setNetworkState_updater (o : options) (h : hook)
    (newState : SetStateAction) : hook :=
  let resolved := TObject (resolve newState (state h)) in
  mkHook resolved (targetStateRef h) (lastStateRef h) (lastUpdateTsRef h)
         (if isOwner o then resolved else pendingUpdateRef h).

(** React runs the updaters of its queue in the order of the calls, each
    on the state the one before it returned. *)
Definition runUpdaters (o : options) (h : hook)
    (queue : list SetStateAction) : hook :=
  foldl (setNetworkState_updater o) h queue.

(** The values the updaters of [queue] resolve to when React runs them. *)
Fixpoint resolutions (o : options) (h : hook) (queue : list SetStateAction)
    : list tval :=
  match queue with
  | [] => []
  | newState :: rest =>
      let h' := setNetworkState_updater o h newState in
      state h' :: resolutions o h' rest
  end.

(** ** Vocabulary of the statements *)

(** [Number.isFinite(x)]: neither an infinity nor NaN. *)
Definition is_finite (x : float) : bool := (abs x <? infinity)%float.

(** [r] lies between [a] and [b], whichever of the two is the smaller. *)
Definition between (a b r : float) : bool :=
  ((a <=? r) && (r <=? b) || (b <=? r) && (r <=? a))%float.

(** The value the loop of [interpolateState] assigns to [key] when
    [targetState[key]] is [target_v]. *)
Definition assigned (currentState : estate) (t : float) (key : string)
    (target_v : value) : value :=
  match target_v, get currentState key with
  | VNumber e, VNumber s => VNumber (lerp s e t)
  | _, _ => target_v
  end.

(** Binary64 values, as [SpecFloat] describes them, that are at least one,
    resp. strictly positive. *)
Definition ge_one (X : spec_float) : Prop :=
  match X with
  | S754_infinity false => True
  | S754_finite false m e => (-52 < e \/ (e = -52 /\ 2 ^ 52 <= Z.pos m))%Z
  | _ => False
  end.

Definition positive_sf (X : spec_float) : Prop :=
  match X with
  | S754_infinity false | S754_finite false _ _ => True
  | _ => False
  end.

(** [lerp]'s expression read over exact rationals, for comparison with
    what the doubles compute. *)
Definition lerp_exact (start end_ t : Q) : Q :=
  (start * (1 - t) + end_ * t)%Q.

(** ** Sample data *)

(** 0.1 and 0.3 as the doubles JavaScript reads them. *)
Definition d0_1 : float := 0x1.999999999999ap-4%float.
Definition d0_3 : float := 0x1.3333333333333p-2%float.

Definition player_here : estate :=
  {[ "x" := VNumber 1%float; "name" := VString "ann" ]}.
Definition player_there : estate :=
  {[ "x" := VNumber 3%float; "y" := VNumber 2%float ]}.
Definition player_renamed : estate :=
  {[ "x" := VString "far"; "name" := VString "bob" ]}.

Definition observer : options := defaultOptions "player-1" player_here.
Definition observer_2 : options := defaultOptions "player-2" player_here.
Definition observer_snap : options :=
  mkOptions "player-1" player_here false 100%float false.
Definition owner : options :=
  mkOptions "player-1" player_here true 100%float true.

Definition in_room : GameSocket := mkGameSocket (Some "room-1") true.
Definition update_without_payload : CustomEvent :=
  mkEvent "entity:update" None.

(** ** A binding over time *)

(** One binding as the host drives it: the hook's state and refs, the
    updaters that [setNetworkState] handed to [setState] and that React has
    not run yet, and whether the animation loop still has a frame requested
    ([animate] requests the next frame as its last step, so a frame that
    throws ends the loop).

    A plain value given to [setState] (the handler's and [animate]'s, which
    only an Observer reaches) is in [state] at once, as [onEntityUpdate] and
    [animate] have it; an Owner's state changes through the queue only. *)
Record binding : Type := mkBinding {
  b_hook : hook;
  b_queue : list SetStateAction;
  b_looping : bool
}.

(** The binding after the first render and its effects. *)
Definition start (o : options) (now : float) : binding :=
  mkBinding (mount o now) [] (animating o).

(** [setNetworkState(newState)]: the call hands its updater to [setState]
    and returns; React queues the updater, nothing is assigned yet. *)
Definition setNetworkState (b : binding) (newState : SetStateAction)
    : binding :=
  mkBinding (b_hook b) (b_queue b ++ [newState])%list (b_looping b).

(** React renders the component: the queued updaters run. *)
Definition render (o : options) (b : binding) : binding :=
  mkBinding (runUpdaters o (b_hook b) (b_queue b)) [] (b_looping b).

(** What the host can do to a binding.  When React renders after a
    [setState] is its own decision, so a render is an action like the
    others: every schedule is a sequence of these. *)
Inductive action : Type :=
  | Write (newState : SetStateAction)           (* [setNetworkState(newState)] *)
  | Inbound (now : float) (data : CustomEvent)  (* the transport dispatches [data] *)
  | IntervalTick                                (* the [setInterval] timer fires *)
  | AnimationFrame (now : float)                (* the browser runs a frame *)
  | Render.                                     (* React renders the component *)

(** What a callback leaves outside the binding: a message handed to
    [emitToRoom], or an exception nobody caught. *)
Inductive output : Type :=
  | Emitted (m : message)
  | Uncaught (e : error).

(** One action.  A callback runs only if its effect installed it: the
    handler if subscribed, the interval for a connected Owner in a room,
    the frame while the loop is alive. *)
Definition step (o : options) (g : GameSocket) (b : binding) (a : action)
    : binding * list output :=
  match a with
  | Write newState => (setNetworkState b newState, [])
  | Inbound now data =>
      if subscribed g then
        match onEntityUpdate o now (b_hook b) data with
        | Returns h' => (mkBinding h' (b_queue b) (b_looping b), [])
        | Throws e => (b, [Uncaught e])
        end
      else (b, [])
  | IntervalTick =>
      match broadcasting o g with
      | Some roomId =>
          (mkBinding (broadcastTick o roomId (b_hook b)).1 (b_queue b)
                     (b_looping b),
           Emitted <$> (broadcastTick o roomId (b_hook b)).2)
      | None => (b, [])
      end
  | AnimationFrame now =>
      if animating o && b_looping b then
        match animate o now (b_hook b) with
        | Returns h' => (mkBinding h' (b_queue b) true, [])
        | Throws e => (mkBinding (b_hook b) (b_queue b) false, [Uncaught e])
        end
      else (b, [])
  | Render => (render o b, [])
  end.

(** A sequence of actions, with everything it left outside. *)
Fixpoint run (o : options) (g : GameSocket) (b : binding) (acts : list action)
    : binding * list output :=
  match acts with
  | [] => (b, [])
  | a :: rest =>
      let r1 := step o g b a in
      let r2 := run o g r1.1 rest in
      (r2.1, (r1.2 ++ r2.2)%list)
  end.

(** The envelope under which the relay server hands a message to the other
    participants: [event] and [payload] as [emitToRoom] sent them. *)
Definition relayed (m : message) : CustomEvent :=
  mkEvent (m_event m) (Some (mkPayload (Some (m_entityId m)) (m_state m))).

(** The messages among the outputs, and the exceptions among them. *)
Definition emitted (out : list output) : list message :=
  omap (λ x, match x with Emitted m => Some m | Uncaught _ => None end) out.

Definition uncaught (out : list output) : list error :=
  omap (λ x, match x with Uncaught e => Some e | Emitted _ => None end) out.

(** The arguments of the [setNetworkState] calls of a sequence, and the
    values that the updaters run during the sequence resolved to, in
    order. *)
Definition writes (acts : list action) : list SetStateAction :=
  omap (λ a, match a with Write n => Some n | _ => None end) acts.

Fixpoint written (o : options) (g : GameSocket) (b : binding)
    (acts : list action) : list tval :=
  match acts with
  | [] => []
  | a :: rest =>
      let b1 := (step o g b a).1 in
      match a with
      | Render =>
          (resolutions o (b_hook b) (b_queue b) ++ written o g b1 rest)%list
      | _ => written o g b1 rest
      end
  end.

Definition is_interval_tick (a : action) : bool :=
  match a with IntervalTick => true | _ => false end.

Definition is_inbound (a : action) : bool :=
  match a with Inbound _ _ => true | _ => false end.

(** An inbound event that has its payload and an object as [state]. *)
Definition well_formed (a : action) : bool :=
  match a with
  | Inbound _ data =>
      match payload data with
      | Some p => truthy (p_state p)
      | None => false
      end
  | _ => true
  end.

(** The buffer as a list: the pending value, if there is one. *)
Definition staged (h : hook) : list tval :=
  if truthy (pendingUpdateRef h) then [pendingUpdateRef h] else [].

(** The three slots the render tick reads hold objects. *)
Definition slots_hold_objects (h : hook) : bool :=
  truthy (state h) && truthy (targetStateRef h) && truthy (lastStateRef h).

(** ** client/SocketClient: the listener registry *)

Module SocketClient.

(** An [EventCallback], known by its identity: the [Set] compares
    functions by reference. *)
Definition callback : Type := nat.

(** [Set<EventCallback>]: the elements in insertion order, none twice. *)
Definition set_add (cb : callback) (s : list callback) : list callback :=
  if bool_decide (cb ∈ s) then s else (s ++ [cb])%list.

Definition set_delete (cb : callback) (s : list callback) : list callback :=
  filter (λ x, x ≠ cb) s.

(** The socket.io socket as the registry uses it: the event names for
    which [on] attached a forwarding listener
    [(data) => this.notifyListeners(event, data)], one entry for each
    listener.  The listeners of [setupBaseListeners] are on every socket
    and are not in this list. *)
Record Socket : Type := mkSocket {
  forwarders : list string
}.

(** The client: [this.socket] and [this.listeners]. *)
Record t : Type := mkClient {
  socket : option Socket;
  listeners : gmap string (list callback)
}.

(** [on(event, callback)] *)
Definition on (event : string) (cb : callback) (c : t) : t :=
  let c1 :=
    if bool_decide (is_Some (listeners c !! event)) then c
    else mkClient
           ((λ s, mkSocket (forwarders s ++ [event])%list) <$> socket c)
           (<[event := []]> (listeners c)) in
  mkClient (socket c1) (alter (set_add cb) event (listeners c1)).

(** [off(event, callback)] *)
Definition off (event : string) (cb : callback) (c : t) : t :=
  mkClient (socket c) (alter (set_delete cb) event (listeners c)).

(** [notifyListeners(event, data)]: the callbacks [forEach] calls, in
    order (each one is taken to return). *)
Definition notifyListeners (event : string) (c : t) : list callback :=
  default [] (listeners c !! event).

(** The listener of ['room:emit'] that [setupBaseListeners] installs: the
    general listeners, then those of the envelope's own event name if it
    is truthy. *)
Definition onRoomEmit (data : CustomEvent) (c : t) : list callback :=
  (notifyListeners "room:emit" c
   ++ (if bool_decide (event data = "") then []
       else notifyListeners (event data) c))%list.

(** The socket receives ['room:emit'] from the server: its listeners run in
    the order they were attached, the base listener first, then every
    forwarder attached for that name. *)
Definition receiveRoomEmit (data : CustomEvent) (c : t) : list callback :=
  match socket c with
  | None => []
  | Some s =>
      (onRoomEmit data c
       ++ flat_map (λ e, if bool_decide (e = "room:emit")
                         then notifyListeners "room:emit" c else [])
            (forwarders s))%list
  end.

(** No callback is twice in a [Set]. *)
Definition sets_have_no_duplicates (c : t) : Prop :=
  map_Forall (λ _ s, NoDup s) (listeners c).

(** A client on which [connect] was called and [on] never. *)
Definition connected_fresh : t := mkClient (Some (mkSocket [])) ∅.

End SocketClient.

(** ** context/GameSocketContext: the provider's state *)

Module GameSocketContext.

(** [Member] *)
Record Member : Type := mkMember {
  userId : string;
  socketId : string;
  isAdmin : bool;
  joinedAt : float;
  peerId : option string
}.

(** [Room]; [members] is read as [prev.members || []], it can be missing
    (the acknowledgement of [room:create] is stored as it comes). *)
Record Room : Type := mkRoom {
  roomId : string;
  createdAt : float;
  createdBy : string;
  members : option (list Member);
  maxMembers : option float;
  isPrivate : option bool;
  password : option string;
  bannedUserIds : list string;
  admins : list string
}.

(** [PresenceEvent] *)
Record PresenceEvent : Type := mkPresence {
  pe_roomId : string;
  pe_userId : string;
  pe_event : string;
  pe_peerId : option string;
  pe_isAdmin : bool;
  pe_ts : float
}.

(** [ConnectionStatus] *)
Record ConnectionStatus : Type := mkStatus {
  connected : bool;
  cs_socketId : option string
}.

(** The state cells of [GameSocketProvider] that the handlers write. *)
Record State : Type := mkState {
  connectionStatus : ConnectionStatus;
  currentRoom : option Room;
  rooms : list Room;
  me : option string            (* [me.userId], or null *)
}.

(** [useState] initial values. *)
Definition initial : State := mkState (mkStatus false None) None [] None.

(** [{ ...prev, members: newMembers }] *)
Definition withMembers (prev : Room) (newMembers : list Member) : Room :=
  mkRoom (roomId prev) (createdAt prev) (createdBy prev) (Some newMembers)
         (maxMembers prev) (isPrivate prev) (password prev)
         (bannedUserIds prev) (admins prev).

(** The member list after the presence event, [now] being [Date.now()]. *)
Definition newMembers (now : float) (data : PresenceEvent)
    (prevMembers : list Member) : list Member :=
  if bool_decide (pe_event data = "join") then
    match list_find (λ m, userId m = pe_userId data) prevMembers with
    | Some _ => prevMembers
    | None =>
        (prevMembers
         ++ [mkMember (pe_userId data) "" (pe_isAdmin data) now (pe_peerId data)])%list
    end
  else if bool_decide (pe_event data = "leave") then
    match list_find (λ m, userId m = pe_userId data) prevMembers with
    | Some (idx, _) => delete idx prevMembers
    | None => prevMembers
    end
  else prevMembers.

(** The updater [handlePresence] hands to [setCurrentRoom]. *)
Definition presenceUpdate (now : float) (data : PresenceEvent)
    (prev : option Room) : option Room :=
  match prev with
  | None => None
  | Some r =>
      if bool_decide (roomId r ≠ pe_roomId data) then Some r
      else Some (withMembers r (newMembers now data (default [] (members r))))
  end.

(** [handlePresence(data)], as far as the provider's state goes (it also
    dials the peer that joined). *)
Definition handlePresence (now : float) (data : PresenceEvent) (st : State)
    : State :=
  mkState (connectionStatus st) (presenceUpdate now data (currentRoom st))
          (rooms st) (me st).

(** [handleConnect(data)] *)
Definition handleConnect (data_socketId : option string) (st : State) : State :=
  mkState (mkStatus true data_socketId) (currentRoom st) (rooms st) (me st).

(** [handleDisconnect()] *)
Definition handleDisconnect (st : State) : State :=
  mkState (mkStatus false None) None (rooms st) (me st).

(** What [restClient.listRooms()] came to inside [joinRoom]. *)
Inductive listRoomsOutcome : Type :=
  | Listed (roomList : list Room)
  | ListFailed.

(** The room [joinRoom] makes up when the list does not have it;
    [created] and [joined] are the two values of [Date.now()]. *)
Definition fallbackRoom (room : string) (me : option string)
    (myPeerId : option string) (created joined : float) : Room :=
  mkRoom room created "unknown"
    (Some [mkMember
             (match me with
              | Some u => if bool_decide (u = "") then "unknown" else u
              | None => "unknown"
              end)
             "" false joined myPeerId])
    None None None [] [].

(** The room [joinRoom(roomId)] stores once [client.joinRoom] resolved. *)
Definition joinedRoom (room : string) (me : option string)
    (myPeerId : option string) (created joined : float)
    (rest : listRoomsOutcome) : Room :=
  match rest with
  | Listed roomList =>
      match list_find (λ r, roomId r = room) roomList with
      | Some (_, r) => r
      | None => fallbackRoom room me myPeerId created joined
      end
  | ListFailed => fallbackRoom room me myPeerId created joined
  end.

Definition setCurrentRoom (room : option Room) (st : State) : State :=
  mkState (connectionStatus st) room (rooms st) (me st).

(** [leaveRoom()]: [Some false] without a room, [Some true] and the room
    cleared when the server acknowledged, [None] (the rejection is
    rethrown) and nothing changed when it did not. *)
Definition leaveRoom (acknowledged : bool) (st : State) : State * option bool :=
  match currentRoom st with
  | None => (st, Some false)
  | Some _ =>
      if acknowledged then (setCurrentRoom None st, Some true)
      else (st, None)
  end.

(** The part of the context value the hooks read: [isConnected] and
    [currentRoom]. *)
Definition value (st : State) : GameSocket :=
  mkGameSocket (roomId <$> currentRoom st) (connected (connectionStatus st)).

(** The user ids of a room's members. *)
Definition memberIds (r : option Room) : list string :=
  userId <$> default [] (r ≫= members).

Definition sample_room : Room :=
  mkRoom "room-1" 1000 "ann"
    (Some [mkMember "ann" "s1" true 1000 None;
           mkMember "bob" "s2" false 1100 (Some "peer-bob")])
    None None None [] ["ann"].

Definition join_of (user : string) : PresenceEvent :=
  mkPresence "room-1" user "join" None false 2000.

Definition leave_of (user : string) : PresenceEvent :=
  mkPresence "room-1" user "leave" None false 2000.

(** Connected and in [sample_room]. *)
Definition joined_state : State :=
  setCurrentRoom (Some sample_room) (handleConnect (Some "s1") initial).

(** The Owner's binding with a write not yet sent. *)
Definition owner_with_pending : binding :=
  (run owner (value joined_state) (start owner 0)
     [Write (NewValue player_there); Render]).1.

Definition tick_inbound_tick : list action :=
  [IntervalTick;
   Inbound 5 (entityUpdate (Some "player-1") (TObject player_here));
   IntervalTick].

End GameSocketContext.

(** * Binary64 arithmetic

    Facts about the operations on doubles that the engine relies on, derived
    from their specification in [SpecFloat]. *)

Module Binary64.

Local Open Scope Z_scope.

(** *** Number of binary digits *)

(** A positive [p] with [d] binary digits lies in [[2^(d-1), 2^d)], and
    this determines [d]. *)
Lemma digits2_pos_bounds p :
  2 ^ (Z.pos (digits2_pos p) - 1) <= Z.pos p < 2 ^ Z.pos (digits2_pos p).
Proof.
  induction p as [p IH|p IH|]; simpl digits2_pos.
  1, 2: rewrite Pos2Z.inj_succ, Z.pow_succ_r by lia;
    replace (Z.succ (Z.pos (digits2_pos p)) - 1)
      with (Z.succ (Z.pos (digits2_pos p) - 1)) by lia;
    rewrite Z.pow_succ_r by lia; lia.
  simpl. lia.
Qed.

Lemma digits2_pos_unique p n :
  2 ^ (n - 1) <= Z.pos p < 2 ^ n -> Z.pos (digits2_pos p) = n.
Proof.
  intros [Hlo Hhi].
  pose proof (digits2_pos_bounds p) as [Dlo Dhi].
  set (d := Z.pos (digits2_pos p)) in *.
  destruct (Z.lt_trichotomy d n) as [Hlt|[Heq|Hgt]]; [|done|].
  - assert (2 ^ d <= 2 ^ (n - 1)) by (apply Z.pow_le_mono_r; lia). lia.
  - assert (0 <= n \/ n < 0) as [Hn|Hn] by lia.
    + assert (2 ^ n <= 2 ^ (d - 1)) by (apply Z.pow_le_mono_r; lia). lia.
    + rewrite Z.pow_neg_r in Hhi by lia. lia.
Qed.

(** *** Multiplying by one is exact *)

Lemma canonical_fexp m e :
  canonical_mantissa prec emax m e = true ->
  fexp prec emax (Z.pos (digits2_pos m) + e) = e.
Proof. unfold canonical_mantissa. apply Z.eqb_eq. Qed.

Lemma digits2_pos_shift52 m :
  Z.pos (digits2_pos (4503599627370496 * m)) = Z.pos (digits2_pos m) + 52.
Proof.
  cbv [Pos.mul]. cbn [digits2_pos]. rewrite !Pos2Z.inj_succ. lia.
Qed.

(** The mantissa [m * 2^52] is shifted back by 52 bits without loss. *)
Lemma SFmul_one X :
  valid_binary X = true ->
  SFmul prec emax X (S754_finite false 4503599627370496 (-52)) = X.
Proof.
  destruct X as [s|s|  |s m e]; simpl; intros Hv.
  - by destruct s.
  - by destruct s.
  - done.
  - apply andb_prop in Hv as [Hc Hb].
    apply canonical_fexp in Hc.
    rewrite Pos.mul_comm.
    unfold binary_round_aux, shr_fexp, Zdigits2.
    rewrite digits2_pos_shift52.
    replace (Z.pos (digits2_pos m) + 52 + (e + -52))
      with (Z.pos (digits2_pos m) + e) by lia.
    rewrite Hc.
    replace (e - (e + -52)) with 52 by lia.
    cbn [shr shr_record_of_loc].
    replace (e + -52 + 52) with e by lia.
    cbv [SpecFloat.iter_pos shr_1 Pos.mul shr_m shr_r shr_s orb
         loc_of_shr_record round_nearest_even Zdigits2].
    rewrite Hc, Z.sub_diag. cbn [shr shr_record_of_loc shr_m].
    rewrite Hb. by rewrite xorb_false_r.
Qed.

(** [x * 1] is [x] for every double, NaN and the infinities included. *)
Lemma mul_one x : (x * 1)%float = x.
Proof.
  apply Prim2SF_inj. rewrite mul_spec. apply SFmul_one, Prim2SF_valid.
Qed.

(** *** Finite values, zeros and equality *)

Lemma is_finite_spec x :
  is_finite x = true ->
  match Prim2SF x with
  | S754_zero _ | S754_finite _ _ _ => True
  | _ => False
  end.
Proof.
  unfold is_finite. rewrite FloatAxioms.ltb_spec, abs_spec.
  change (Prim2SF infinity) with (S754_infinity false).
  by destruct (Prim2SF x) as [| | |].
Qed.

Lemma SFcompare_refl X : X <> S754_nan -> SFcompare X X = Some Eq.
Proof.
  destruct X as [s|s| |s m e]; intros HX; try done; simpl.
  - by destruct s.
  - rewrite Z.compare_refl, Pos.compare_cont_refl. by destruct s.
Qed.

Lemma mul_zero x :
  is_finite x = true -> exists s, Prim2SF (x * 0)%float = S754_zero s.
Proof.
  intros Hx%is_finite_spec. rewrite mul_spec.
  change (Prim2SF 0) with (S754_zero false).
  destruct (Prim2SF x) as [s|s| |s m e]; try done; simpl; eauto.
Qed.

Lemma add_zero_r x z s :
  Prim2SF z = S754_zero s -> Prim2SF x <> S754_nan -> (x + z =? x)%float = true.
Proof.
  intros Hz Hx. rewrite FloatAxioms.eqb_spec, add_spec, Hz. unfold SFeqb.
  destruct (Prim2SF x) as [sx|sx| |sx m e] eqn:E; try done.
  - by destruct sx, s.
  - by destruct sx.
  - unfold SF64add, SFadd. by rewrite SFcompare_refl.
Qed.

Lemma add_zero_l x z s :
  Prim2SF z = S754_zero s -> Prim2SF x <> S754_nan -> (z + x =? x)%float = true.
Proof.
  intros Hz Hx. rewrite FloatAxioms.eqb_spec, add_spec, Hz. unfold SFeqb.
  destruct (Prim2SF x) as [sx|sx| |sx m e] eqn:E; try done.
  - by destruct sx, s.
  - by destruct sx.
  - unfold SF64add, SFadd. by rewrite SFcompare_refl.
Qed.

Lemma is_finite_not_nan x : is_finite x = true -> Prim2SF x <> S754_nan.
Proof. intros H%is_finite_spec E. by rewrite E in H. Qed.

(** *** Rounding a quotient that is at least one *)

Lemma ge_one_not_lt X :
  ge_one X -> SFltb X (S754_finite false 4503599627370496 (-52)) = false.
Proof.
  destruct X as [s|[]| |[] m e]; try done. unfold SFltb, SFcompare.
  change (2 ^ 52) with 4503599627370496.
  intros [He|[-> Hm]].
  - by rewrite (proj2 (Z.compare_gt_iff _ _)) by lia.
  - rewrite Z.compare_refl.
    destruct (Pos.compare_cont Eq m 4503599627370496) eqn:E; try done.
    apply (proj1 (Pos.compare_lt_iff m 4503599627370496)) in E.
    apply Pos2Z.pos_lt_pos in E. lia.
Qed.

Lemma shr_m_of_loc m l : shr_m (shr_record_of_loc m l) = m.
Proof. by destruct l as [|[]]. Qed.

(** A mantissa of 53 or 54 bits is brought to 53 bits by a shift of at most
    one bit. *)
Lemma shr_fexp_norm q e l :
  2 ^ 52 <= q < 2 ^ 54 -> -53 <= e -> (e = -53 -> 2 ^ 53 <= q) ->
  2 ^ 52 <= shr_m (fst (shr_fexp prec emax q e l)) < 2 ^ 53
  /\ -52 <= snd (shr_fexp prec emax q e l).
Proof.
  intros Hq He He53.
  destruct q as [|p|p];
    [change (2 ^ 52) with 4503599627370496 in Hq; lia| |lia].
  unfold shr_fexp, Zdigits2.
  destruct (Z_lt_le_dec (Z.pos p) (2 ^ 53)) as [Hlt|Hge].
  - rewrite (digits2_pos_unique p 53) by (change (53 - 1) with 52; lia).
    replace (fexp prec emax (53 + e) - e) with 0
      by (unfold fexp, SpecFloat.emin, prec, emax; lia).
    cbn [shr fst snd]. rewrite shr_m_of_loc. lia.
  - rewrite (digits2_pos_unique p 54) by (change (54 - 1) with 53; lia).
    replace (fexp prec emax (54 + e) - e) with 1
      by (unfold fexp, SpecFloat.emin, prec, emax; lia).
    cbn [shr fst snd SpecFloat.iter_pos].
    change (2 ^ 52) with 4503599627370496 in *.
    change (2 ^ 53) with 9007199254740992 in *.
    change (2 ^ 54) with 18014398509481984 in *.
    split; [|lia].
    destruct p as [p|p|]; [| |lia]; destruct l as [|[]]; cbn; lia.
Qed.

Lemma round_nearest_even_bounds m l :
  m <= round_nearest_even m l <= m + 1.
Proof. destruct l as [|[]]; cbn; try lia. destruct (Z.even m); lia. Qed.

Lemma binary_round_aux_ge_one q e l :
  2 ^ 52 <= q < 2 ^ 54 -> -53 <= e -> (e = -53 -> 2 ^ 53 <= q) ->
  ge_one (binary_round_aux prec emax false q e l).
Proof.
  intros Hq He He53. unfold binary_round_aux.
  pose proof (shr_fexp_norm q e l Hq He He53) as [Hm1 He1].
  destruct (shr_fexp prec emax q e l) as [mrs1 e1]. cbn [fst snd] in Hm1, He1.
  set (m2 := round_nearest_even (shr_m mrs1) (loc_of_shr_record mrs1)).
  pose proof (round_nearest_even_bounds (shr_m mrs1) (loc_of_shr_record mrs1))
    as Hm2.
  fold m2 in Hm2.
  assert (H2 : 2 ^ 52 <= m2 < 2 ^ 54).
  { change (2 ^ 52) with 4503599627370496 in *.
    change (2 ^ 53) with 9007199254740992 in *.
    change (2 ^ 54) with 18014398509481984. lia. }
  pose proof (shr_fexp_norm m2 e1 loc_Exact H2 ltac:(lia) ltac:(lia))
    as [Hm3 He3].
  destruct (shr_fexp prec emax m2 e1 loc_Exact) as [mrs3 e3].
  cbn [fst snd] in Hm3, He3.
  destruct (shr_m mrs3) as [|m|m];
    [change (2 ^ 52) with 4503599627370496 in Hm3; lia| |lia].
  destruct (e3 <=? emax - prec); [|done].
  cbn. lia.
Qed.

Lemma bounded_digits m e :
  bounded prec emax m e = true ->
  1 <= Z.pos (digits2_pos m) <= 53 /\ -1074 <= e /\
  (-1074 < e -> Z.pos (digits2_pos m) = 53).
Proof.
  intros [Hc _]%andb_prop. apply canonical_fexp in Hc.
  revert Hc. unfold fexp, SpecFloat.emin, prec, emax. lia.
Qed.

Lemma shiftl_case s m :
  0 < s ->
  match s with
  | Z.pos _ => Z.shiftl m s
  | 0 => m
  | Z.neg _ => 0
  end = m * 2 ^ s.
Proof. intros Hs. destruct s; [lia| |lia]. apply Z.shiftl_mul_pow2. lia. Qed.

Lemma SFleb_finite_pos my ey mx ex :
  SFleb (S754_finite false my ey) (S754_finite false mx ex) = true ->
  ey < ex \/ (ey = ex /\ Z.pos my <= Z.pos mx).
Proof.
  unfold SFleb, SFcompare.
  destruct (Z.compare_spec ey ex) as [->|Hlt|Hgt]; [|lia|done].
  destruct (Pos.compare_cont Eq my mx) eqn:E; try done;
    intros _; right; split; try done.
  - apply (Pos.compare_eq my mx) in E. by subst.
  - apply (proj1 (Pos.compare_lt_iff my mx)) in E.
    apply Pos2Z.pos_lt_pos in E. lia.
Qed.

(** For positive finite [y <= x] the integer quotient that [SFdiv] rounds
    has 53 or 54 bits and stands for a value of at least one. *)
Lemma SFdiv_ge_one mx ex my ey :
  bounded prec emax mx ex = true -> bounded prec emax my ey = true ->
  SFleb (S754_finite false my ey) (S754_finite false mx ex) = true ->
  ge_one (SFdiv prec emax (S754_finite false mx ex) (S754_finite false my ey)).
Proof.
  intros Hx Hy Hle%SFleb_finite_pos.
  apply bounded_digits in Hx as (Hdx & Hex & Hnx).
  apply bounded_digits in Hy as (Hdy & Hey & Hny).
  pose proof (digits2_pos_bounds mx) as Bx.
  pose proof (digits2_pos_bounds my) as By.
  unfold SFdiv, SFdiv_core_binary, Zdigits2. cbn [xorb].
  set (dx := Z.pos (digits2_pos mx)) in *.
  set (dy := Z.pos (digits2_pos my)) in *.
  assert (Hd : 0 <= ex - ey + dx - dy).
  { destruct Hle as [Hlt|[-> Hm]]; [lia|].
    assert (dy - 1 < dx); [|lia].
    apply (Z.pow_lt_mono_r_iff 2); lia. }
  replace (Z.min (fexp prec emax (dx + ex - (dy + ey))) (ex - ey))
    with (ex - ey + dx - dy - 53)
    by (unfold fexp, SpecFloat.emin, prec, emax; lia).
  replace (ex - ey - (ex - ey + dx - dy - 53)) with (53 + dy - dx) by lia.
  rewrite shiftl_case by lia.
  destruct (Z.div_eucl (Z.pos mx * 2 ^ (53 + dy - dx)) (Z.pos my))
    as [q r] eqn:E.
  assert (Hq : q = Z.pos mx * 2 ^ (53 + dy - dx) / Z.pos my)
    by (unfold Z.div; by rewrite E).
  clear E.
  (* the powers of two involved *)
  set (A := 2 ^ (dx - 1)) in *. set (B := 2 ^ (dy - 1)) in *.
  set (S := 2 ^ (53 + dy - dx)) in *.
  assert (HA : 2 ^ dx = 2 * A).
  { unfold A. rewrite <- Z.pow_succ_r by lia. f_equal; lia. }
  assert (HB : 2 ^ dy = 2 * B).
  { unfold B. rewrite <- Z.pow_succ_r by lia. f_equal; lia. }
  assert (HS : S * A = 2 ^ 53 * B).
  { unfold S, A, B. rewrite <- !Z.pow_add_r by lia. f_equal; lia. }
  assert (HBpos : 0 < B) by (apply Z.pow_pos_nonneg; lia).
  assert (HSpos : 0 < S) by (apply Z.pow_pos_nonneg; lia).
  rewrite HA in Bx. rewrite HB in By.
  change (2 ^ 53) with 9007199254740992 in HS.
  apply binary_round_aux_ge_one.
  - change (2 ^ 52) with 4503599627370496.
    change (2 ^ 54) with 18014398509481984.
    subst q. split.
    + apply Z.div_le_lower_bound; [lia|]. nia.
    + apply Z.div_lt_upper_bound; [lia|]. nia.
  - lia.
  - intros He. change (2 ^ 53) with 9007199254740992.
    destruct Hle as [Hlt|[-> Hm]]; [lia|].
    assert (dx = dy) as Hdd by lia.
    subst q. apply Z.div_le_lower_bound; [lia|].
    assert (S = 9007199254740992) as ->.
    { unfold S. rewrite Hdd. replace (53 + dy - dy) with 53 by lia. done. }
    lia.
Qed.

(** *** Rounding a positive product *)

Lemma positive_sf_spec X :
  SFltb (S754_zero false) X = true <-> positive_sf X.
Proof. by destruct X as [|[]| |[]]. Qed.

Lemma shr_1_div r : 0 <= shr_m r -> shr_m (shr_1 r) = shr_m r / 2.
Proof.
  destruct r as [[|[p|p|]|p] r s]; cbn [shr_m shr_1]; intros H; try lia.
  - done.
  - apply (Z.div_unique _ 2 _ 1); lia.
  - apply (Z.div_unique _ 2 _ 0); lia.
  - done.
Qed.

Lemma iter_shr_1_div p : forall r,
  0 <= shr_m r ->
  shr_m (SpecFloat.iter_pos shr_1 p r) = shr_m r / 2 ^ Z.pos p.
Proof.
  assert (Hnn : forall r, 0 <= shr_m r -> 0 <= shr_m (shr_1 r)).
  { intros r Hr. rewrite shr_1_div by done. apply Z.div_pos; lia. }
  induction p as [p IH|p IH|]; intros r Hr; cbn [SpecFloat.iter_pos].
  - rewrite IH, IH, shr_1_div by (rewrite ?IH; auto using Z.div_pos with zarith).
    rewrite !Z.div_div by (try apply Z.pow_pos_nonneg; lia).
    f_equal. replace (Z.pos p~1) with (1 + Z.pos p + Z.pos p) by lia.
    rewrite !Z.pow_add_r, Z.pow_1_r by lia. ring.
  - rewrite IH, IH by (rewrite ?IH; auto using Z.div_pos with zarith).
    rewrite !Z.div_div by (try apply Z.pow_pos_nonneg; lia).
    f_equal. replace (Z.pos p~0) with (Z.pos p + Z.pos p) by lia.
    rewrite Z.pow_add_r by lia. ring.
  - by rewrite shr_1_div.
Qed.

(** A value of at least the smallest subnormal keeps a non-zero mantissa
    when it is shifted to its exponent. *)
Lemma shr_fexp_pos M e l :
  0 < M -> -1073 <= Zdigits2 M + e ->
  0 < shr_m (fst (shr_fexp prec emax M e l))
  /\ -1074 <= snd (shr_fexp prec emax M e l).
Proof.
  intros HM Hd. destruct M as [|p|p]; try lia. cbn [Zdigits2] in *.
  pose proof (digits2_pos_bounds p) as [Blo Bhi].
  unfold shr_fexp, Zdigits2.
  set (d := Z.pos (digits2_pos p)) in *.
  assert (Hn : fexp prec emax (d + e) - e <= d - 1
               /\ -1074 - e <= fexp prec emax (d + e) - e)
    by (unfold fexp, SpecFloat.emin, prec, emax; lia).
  destruct (fexp prec emax (d + e) - e) as [|n|n] eqn:En; cbn [shr fst snd].
  - rewrite shr_m_of_loc. lia.
  - split; [|lia].
    rewrite iter_shr_1_div, shr_m_of_loc by (rewrite shr_m_of_loc; lia).
    apply Z.div_str_pos. split; [apply Z.pow_pos_nonneg; lia|].
    etrans; [|apply Blo]. apply Z.pow_le_mono_r; lia.
  - rewrite shr_m_of_loc. lia.
Qed.

Lemma binary_round_aux_pos M e l :
  0 < M -> -1073 <= Zdigits2 M + e ->
  positive_sf (binary_round_aux prec emax false M e l).
Proof.
  intros HM Hd. unfold binary_round_aux.
  pose proof (shr_fexp_pos M e l HM Hd) as [Hm1 He1].
  destruct (shr_fexp prec emax M e l) as [mrs1 e1]. cbn [fst snd] in Hm1, He1.
  set (m2 := round_nearest_even (shr_m mrs1) (loc_of_shr_record mrs1)).
  pose proof (round_nearest_even_bounds (shr_m mrs1) (loc_of_shr_record mrs1))
    as Hm2.
  fold m2 in Hm2.
  assert (Hd2 : -1073 <= Zdigits2 m2 + e1).
  { destruct m2; try lia. cbn [Zdigits2]. lia. }
  pose proof (shr_fexp_pos m2 e1 loc_Exact ltac:(lia) Hd2) as [Hm3 He3].
  destruct (shr_fexp prec emax m2 e1 loc_Exact) as [mrs3 e3].
  cbn [fst snd] in Hm3.
  destruct (shr_m mrs3); try lia.
  by destruct (e3 <=? emax - prec).
Qed.

(** The interpolation window of a positive interval is positive. *)
Lemma mul_pos x : (0 <? x)%float = true -> (0 <? x * 1.5)%float = true.
Proof.
  rewrite !FloatAxioms.ltb_spec, mul_spec.
  change (Prim2SF 0) with (S754_zero false).
  change (Prim2SF 1.5) with (S754_finite false 6755399441055744 (-52)).
  rewrite !positive_sf_spec.
  pose proof (Prim2SF_valid x) as Hv.
  destruct (Prim2SF x) as [|[]| |[] m e]; try done.
  intros _. cbn [SF64mul SFmul xorb]. unfold SF64mul, SFmul. cbn [xorb].
  apply bounded_digits in Hv as (Hd & He & _).
  apply binary_round_aux_pos; [lia|]. cbn [Zdigits2].
  pose proof (digits2_pos_bounds (m * 6755399441055744)) as [_ Bhi].
  assert (52 < Z.pos (digits2_pos (m * 6755399441055744))); [|lia].
  apply (Z.pow_lt_mono_r_iff 2); [lia..|].
  eapply Z.le_lt_trans; [|apply Bhi].
  rewrite Pos2Z.inj_mul. change (2 ^ 52) with 4503599627370496. lia.
Qed.

(** Dividing by a positive [y] something that is at least [y] never
    gives less than one (the quotient may be an infinity or NaN). *)
Lemma div_ge_one x y :
  (0 <? y)%float = true -> (y <=? x)%float = true ->
  (x / y <? 1)%float = false.
Proof.
  rewrite !FloatAxioms.ltb_spec, FloatAxioms.leb_spec, div_spec.
  change (Prim2SF 0) with (S754_zero false).
  change (Prim2SF 1) with (S754_finite false 4503599627370496 (-52)).
  rewrite positive_sf_spec.
  pose proof (Prim2SF_valid x) as Hx. pose proof (Prim2SF_valid y) as Hy.
  destruct (Prim2SF y) as [|[]| |[] my ey]; try done;
    destruct (Prim2SF x) as [|[]| |[] mx ex]; try done.
  intros _ Hle. apply ge_one_not_lt. by apply SFdiv_ge_one.
Qed.

(** *** The order of the comparisons *)

Lemma SFcompare_antisym A B :
  SFcompare B A = CompOpp <$> SFcompare A B.
Proof.
  destruct A as [s|s| |s m e], B as [s'|s'| |s' m' e']; try done;
    try (by destruct s); try (by destruct s'); try (by destruct s, s').
  cbn [SFcompare fmap option_fmap option_map].
  rewrite (Z.compare_antisym e e').
  replace (Pos.compare_cont Eq m' m) with (CompOpp (Pos.compare_cont Eq m m'))
    by apply (Pos.compare_cont_antisym m m' Eq).
  destruct s, s', (e ?= e'); try done; cbn [CompOpp];
    by destruct (Pos.compare_cont Eq m m').
Qed.

(** Two values that compare equal (such as the two zeros) compare alike
    with any third one. *)
Lemma SFcompare_Eq R A :
  SFcompare R A = Some Eq ->
  forall B, SFcompare R B = SFcompare A B /\ SFcompare B R = SFcompare B A.
Proof.
  intros HE.
  assert (forall B, SFcompare R B = SFcompare A B) as H.
  { destruct R as [s|s| |s m e], A as [s'|s'| |s' m' e'];
      cbn [SFcompare] in HE; try done;
      try (destruct s; done); try (destruct s'; done).
    - destruct s, s'; try done; by intros [| | |].
    - assert (s = s' /\ e = e' /\ m = m') as (-> & -> & ->); [|done].
      destruct s, s'; try done;
        destruct (Z.compare_spec e e') as [->|?|?]; try done;
        destruct (Pos.compare_cont Eq m m') eqn:E; try done;
        by apply (Pos.compare_eq m m') in E as ->. }
  intros B. split; [done|]. by rewrite !(SFcompare_antisym _ B), H.
Qed.

Lemma leb_total a b :
  Prim2SF a <> S754_nan -> Prim2SF b <> S754_nan ->
  ((a <=? b) || (b <=? a))%float = true.
Proof.
  intros Ha Hb. rewrite !FloatAxioms.leb_spec. unfold SFleb.
  rewrite (SFcompare_antisym (Prim2SF a) (Prim2SF b)).
  destruct (Prim2SF a) as [|[]| |[]], (Prim2SF b) as [|[]| |[]]; try done;
    cbn [SFcompare];
    try by destruct (_ ?= _); try destruct (Pos.compare_cont _ _ _).
Qed.

Lemma eqb_not_nan r a :
  (r =? a)%float = true -> Prim2SF r <> S754_nan /\ Prim2SF a <> S754_nan.
Proof.
  rewrite FloatAxioms.eqb_spec. unfold SFeqb.
  destruct (Prim2SF r), (Prim2SF a); done.
Qed.

Lemma between_left a b r :
  (r =? a)%float = true -> Prim2SF b <> S754_nan -> between a b r = true.
Proof.
  intros Hra Hb. destruct (eqb_not_nan _ _ Hra) as [Hr Ha].
  pose proof (leb_total a b Ha Hb) as Ht.
  revert Hra Ht. unfold between.
  rewrite FloatAxioms.eqb_spec, !FloatAxioms.leb_spec. unfold SFeqb, SFleb.
  destruct (SFcompare (Prim2SF r) (Prim2SF a)) as [[]|] eqn:E; try done.
  destruct (SFcompare_Eq _ _ E (Prim2SF b)) as [-> ->].
  destruct (SFcompare_Eq _ _ E (Prim2SF a)) as [_ ->].
  rewrite (SFcompare_refl (Prim2SF a)) by done.
  intros _. by rewrite andb_true_r.
Qed.

Lemma between_right a b r :
  (r =? b)%float = true -> Prim2SF a <> S754_nan -> between a b r = true.
Proof.
  intros Hrb Ha. destruct (eqb_not_nan _ _ Hrb) as [Hr Hb].
  pose proof (leb_total a b Ha Hb) as Ht.
  revert Hrb Ht. unfold between.
  rewrite FloatAxioms.eqb_spec, !FloatAxioms.leb_spec. unfold SFeqb, SFleb.
  destruct (SFcompare (Prim2SF r) (Prim2SF b)) as [[]|] eqn:E; try done.
  destruct (SFcompare_Eq _ _ E (Prim2SF a)) as [-> ->].
  destruct (SFcompare_Eq _ _ E (Prim2SF b)) as [_ ->].
  rewrite (SFcompare_refl (Prim2SF b)) by done.
  intros _. by rewrite andb_true_r.
Qed.

(** *** [lerp] at the two ends *)

Lemma lerp_at_0 a b :
  is_finite a = true -> is_finite b = true -> (lerp a b 0 =? a)%float = true.
Proof.
  intros Ha Hb. unfold lerp.
  change (1 - 0)%float with 1%float. rewrite mul_one.
  destruct (mul_zero b Hb) as [s Hs].
  eapply add_zero_r; eauto using is_finite_not_nan.
Qed.

Lemma lerp_at_1 a b :
  is_finite a = true -> is_finite b = true -> (lerp a b 1 =? b)%float = true.
Proof.
  intros Ha Hb. unfold lerp.
  change (1 - 1)%float with 0%float. rewrite (mul_one b).
  destruct (mul_zero a Ha) as [s Hs].
  eapply add_zero_l; eauto using is_finite_not_nan.
Qed.

End Binary64.

(** * The interpolator *)

Section InterpolateState.

Variables (currentState : estate) (t : float).

Lemma assign_field_insert key target_v result :
  assign_field currentState t key target_v result
  = <[key := assigned currentState t key target_v]> result.
Proof.
  unfold assign_field, assigned.
  destruct target_v; try reflexivity.
  destruct (get currentState key); reflexivity.
Qed.

(** Reading a property of the result: keys of [targetState] carry the
    assigned value, every other key carries what the spread copied. *)
Lemma interpolateState_lookup (targetState : estate) (key : string) :
  interpolateState currentState targetState t !! key
  = match targetState !! key with
    | Some target_v => Some (assigned currentState t key target_v)
    | None => currentState !! key
    end.
Proof.
  unfold interpolateState.
  apply (map_fold_weak_ind (λ result (m : estate),
    result !! key = match m !! key with
                    | Some target_v => Some (assigned currentState t key target_v)
                    | None => currentState !! key
                    end)).
  - by rewrite lookup_empty.
  - intros k v m result Hk IH.
    rewrite assign_field_insert.
    destruct (decide (k = key)) as [->|Hne].
    + by rewrite !lookup_insert_eq.
    + by rewrite !lookup_insert_ne.
Qed.

End InterpolateState.

(** A field that is a number on both sides is interpolated. *)
Lemma interpolateState_lerps (currentState targetState : estate)
    (t : float) (key : string) (s e : float) :
  currentState !! key = Some (VNumber s) →
  targetState !! key = Some (VNumber e) →
  interpolateState currentState targetState t !! key
  = Some (VNumber (lerp s e t)).
Proof.
  intros Hs He. rewrite interpolateState_lookup, He.
  unfold assigned, get. by rewrite Hs.
Qed.

Example interpolateState_sample :
  interpolateState player_here player_there 0.5
  = {[ "x" := VNumber 2%float; "y" := VNumber 2%float;
       "name" := VString "ann" ]}.
Proof. by vm_compute. Qed.

(** C1, counterexample: interpolating [{x: 1, name: "ann"}] towards
    [{x: 3, y: 2}] gives a result that still has the field [name], which
    the target does not have. *)
Lemma interpolateState_keeps_current_field :
  interpolateState player_here player_there 0.5 !! "name" = Some (VString "ann")
  ∧ player_here !! "name" = Some (VString "ann")
  ∧ player_there !! "name" = None.
Proof. by vm_compute. Qed.

(** C1, amended: a field is present in the result exactly when it is a field
    of [currentState] or of [targetState], and a field that [targetState]
    lacks is in the result as [currentState] has it. *)
Theorem interpolateState_fields (currentState targetState : estate)
    (t : float) (key : string) :
  (is_Some (interpolateState currentState targetState t !! key)
   ↔ is_Some (currentState !! key) ∨ is_Some (targetState !! key))
  ∧ (targetState !! key = None →
     interpolateState currentState targetState t !! key = currentState !! key).
Proof.
  rewrite interpolateState_lookup.
  destruct (targetState !! key) as [target_v|]; split; try done.
  - split; [intros _; right|]; eauto.
  - split; [by left|]. by intros [?|[? ?]].
Qed.

(** C6: a field of [targetState] for which [currentState[field]] and
    [targetState[field]] are not both numbers is, in the result, exactly
    [targetState]'s value, whatever [t] is. *)
Theorem interpolateState_snaps (currentState targetState : estate)
    (t : float) (key : string) (target_v : value) :
  targetState !! key = Some target_v →
  typeof_number target_v && typeof_number (get currentState key) = false →
  interpolateState currentState targetState t !! key = Some target_v.
Proof.
  intros Hkey Hnum. rewrite interpolateState_lookup, Hkey. f_equal.
  unfold assigned.
  destruct target_v; try done. by destruct (get currentState key).
Qed.

Lemma interpolateState_snaps_witness :
  player_renamed !! "x" = Some (VString "far")
  ∧ get player_here "x" = VNumber 1
  ∧ interpolateState player_here player_renamed d0_3 !! "x" = Some (VString "far").
Proof.
  split; [reflexivity|]. split; [reflexivity|].
  apply (interpolateState_snaps player_here player_renamed d0_3 "x" (VString "far"));
    reflexivity.
Defined.

(** ** [lerp] *)

(** C5, counterexample: with [t] the double 0.3,
    [lerp(1, 3, t)] is 1.5999999999999999 while [1 + (3 - 1) * t] is 1.6;
    and [lerp(Infinity, 0, 1)] is NaN, not 0. *)
Lemma lerp_not_linear :
  (0 <=? d0_3)%float = true ∧ (d0_3 <=? 1)%float = true
  ∧ lerp 1 3 d0_3 = 0x1.9999999999999p+0%float
  ∧ (1 + (3 - 1) * d0_3)%float = 0x1.999999999999ap+0%float
  ∧ (lerp 1 3 d0_3 =? 1 + (3 - 1) * d0_3)%float = false
  ∧ (lerp infinity 0 1 =? 0)%float = false.
Proof. by vm_compute. Qed.

(** C5, amended: [lerp(a, b, t)] is [a * (1 - t) + b * t] evaluated in
    doubles, and for finite [a] and [b] it is equal to [a] at [t = 0] and
    to [b] at [t = 1]. *)
Theorem lerp_endpoints (a b : float) :
  is_finite a = true → is_finite b = true →
  (lerp a b 0 =? a)%float = true
  ∧ (lerp a b 1 =? b)%float = true
  ∧ ∀ t, lerp a b t = (a * (1 - t) + b * t)%float.
Proof.
  intros Ha Hb.
  split; [by apply Binary64.lerp_at_0|].
  split; [by apply Binary64.lerp_at_1|]. done.
Qed.

Lemma lerp_endpoints_witness :
  is_finite d0_1 = true ∧ is_finite 3 = true
  ∧ (lerp d0_1 3 0 =? d0_1)%float = true
  ∧ (lerp d0_1 3 1 =? 3)%float = true
  ∧ ∀ t, lerp d0_1 3 t = (d0_1 * (1 - t) + 3 * t)%float.
Proof.
  split; [reflexivity|]. split; [reflexivity|].
  apply (lerp_endpoints d0_1 3); reflexivity.
Defined.

(** C10, counterexample: with [a] the double 0.1 and [t] the double 0.3,
    [lerp(a, a, t)] is 0.09999999999999999, below [a]. *)
Lemma lerp_undershoots :
  (0 <=? d0_3)%float = true ∧ (d0_3 <=? 1)%float = true
  ∧ lerp d0_1 d0_1 d0_3 = 0x1.9999999999999p-4%float
  ∧ (lerp d0_1 d0_1 d0_3 <? d0_1)%float = true
  ∧ between d0_1 d0_1 (lerp d0_1 d0_1 d0_3) = false
  ∧ (lerp d0_1 d0_1 d0_3 =? d0_1)%float = false.
Proof. by vm_compute. Qed.

(** C10, amended: for finite [a] and [b], at [t = 0] and at [t = 1] the
    value [lerp(a, b, t)] lies between [a] and [b], and [lerp(a, a, t)] is
    equal to [a]. *)
Theorem lerp_between_at_ends (a b t : float) :
  is_finite a = true → is_finite b = true →
  t = 0%float ∨ t = 1%float →
  between a b (lerp a b t) = true ∧ (lerp a a t =? a)%float = true.
Proof.
  intros Ha Hb [-> | ->].
  - split; [|by apply Binary64.lerp_at_0].
    apply Binary64.between_left; [by apply Binary64.lerp_at_0|].
    by apply Binary64.is_finite_not_nan.
  - split; [|by apply Binary64.lerp_at_1].
    apply Binary64.between_right; [by apply Binary64.lerp_at_1|].
    by apply Binary64.is_finite_not_nan.
Qed.

Lemma lerp_between_at_ends_witness :
  is_finite 3 = true ∧ is_finite d0_1 = true
  ∧ between 3 d0_1 (lerp 3 d0_1 1) = true ∧ (lerp 3 3 1 =? 3)%float = true.
Proof.
  split; [reflexivity|]. split; [reflexivity|].
  apply (lerp_between_at_ends 3 d0_1 1); [reflexivity|reflexivity|].
  right; reflexivity.
Defined.

(** Over exact rationals the expression of [lerp] is the linear form, and
    it stays between its two ends; the doubles depart from this by the
    rounding of each operation only. *)
Lemma lerp_exact_linear (a b t : Q) :
  (lerp_exact a b t == a + (b - a) * t)%Q.
Proof. unfold lerp_exact. ring. Qed.

Lemma lerp_exact_between (a b t : Q) :
  (0 <= t)%Q → (t <= 1)%Q → (a <= b)%Q →
  (a <= lerp_exact a b t)%Q ∧ (lerp_exact a b t <= b)%Q.
Proof.
  intros H0 H1 Hab. unfold lerp_exact. split; nra.
Qed.

(** * The synchronisation engine *)

(** ** Inbound updates *)

Lemma onEntityUpdate_returns o now h data p :
  payload data = Some p → ∃ h', onEntityUpdate o now h data = Returns h'.
Proof.
  intros Hp. unfold onEntityUpdate. rewrite Hp.
  repeat case_bool_decide;
    destruct (isOwner o), (enableInterpolation o); cbn; eauto.
Qed.

Lemma onEntityUpdate_other_entity o now h data p :
  payload data = Some p → p_entityId p ≠ Some (entityId o) →
  onEntityUpdate o now h data = Returns h.
Proof.
  intros Hp Hid. unfold onEntityUpdate. rewrite Hp.
  by repeat case_bool_decide.
Qed.

Lemma onEntityUpdate_owner o now h data p :
  payload data = Some p → isOwner o = true →
  onEntityUpdate o now h data = Returns h.
Proof.
  intros Hp Ho. unfold onEntityUpdate. rewrite Hp, Ho.
  by repeat case_bool_decide.
Qed.

(** C2, counterexample: an ['entity:update'] envelope without payload makes
    the handler throw a TypeError; a payload with the bound entityId and no
    [state] is taken by an Observer as an update: [undefined] becomes the
    target (and the timestamp moves) when it interpolates, and becomes the
    visible state when it does not. *)
Lemma onEntityUpdate_malformed_not_ignored :
  onEntityUpdate owner 2000 (mount owner 1000) update_without_payload
  = Throws TypeError
  ∧ onEntityUpdate observer 2000 (mount observer 1000)
      (entityUpdate (Some "player-1") TUndefined)
    = Returns (mkHook (TObject player_here) TUndefined (TObject player_here)
                 2000 TNull)
  ∧ onEntityUpdate observer_snap 2000 (mount observer_snap 1000)
      (entityUpdate (Some "player-1") TUndefined)
    = Returns (mkHook TUndefined (TObject player_here) (TObject player_here)
                 1000 TNull).
Proof. by vm_compute. Qed.

(** C2, amended: an inbound event that has its payload but no [entityId]
    in it, and any inbound event with a payload that reaches an Owner (so
    also one without [state]), is handled like a non-matching event: the
    handler returns, and the visible state and the cursor are as before,
    for every role and interpolation setting in the first case. *)
Theorem onEntityUpdate_ignores_malformed o now h data p :
  payload data = Some p →
  p_entityId p = None ∨ isOwner o = true →
  onEntityUpdate o now h data = Returns h.
Proof.
  intros Hp [Hid|Ho].
  - apply (onEntityUpdate_other_entity o now h data p Hp). by rewrite Hid.
  - by apply (onEntityUpdate_owner o now h data p).
Qed.

Lemma onEntityUpdate_ignores_malformed_witness :
  onEntityUpdate observer 2000 (mount observer 1000)
    (entityUpdate None TUndefined)
  = Returns (mount observer 1000).
Proof.
  apply (onEntityUpdate_ignores_malformed observer 2000 (mount observer 1000)
           (entityUpdate None TUndefined) (mkPayload None TUndefined));
    [reflexivity | left; reflexivity].
Defined.

(** C7: an Owner that is handed an inbound update carrying its own
    entityId keeps its visible state, its cursor and its buffer. *)
Theorem owner_ignores_self_echo o now h data p :
  isOwner o = true →
  payload data = Some p → p_entityId p = Some (entityId o) →
  onEntityUpdate o now h data = Returns h.
Proof. intros Ho Hp _. by apply (onEntityUpdate_owner o now h data p). Qed.

Lemma owner_ignores_self_echo_witness :
  isOwner owner = true
  ∧ onEntityUpdate owner 2000 (mount owner 1000)
      (entityUpdate (Some "player-1") (TObject player_there))
    = Returns (mount owner 1000).
Proof.
  split; [reflexivity|].
  apply (owner_ignores_self_echo owner 2000 (mount owner 1000) _
           (mkPayload (Some "player-1") (TObject player_there)));
    reflexivity.
Defined.

(** C8: when an update tagged with entityId [A] is delivered to the
    subscribed bindings, every handler returns and each binding whose
    entityId differs from [A] is left exactly as it was (visible state,
    last visual state, target and arrival timestamp included). *)
Theorem entity_isolation now data p (A : string)
    (bindings : list (options * hook)) :
  payload data = Some p → p_entityId p = Some A →
  ∃ bindings',
    notifyListeners now data bindings = Returns bindings'
    ∧ ∀ i o h, bindings !! i = Some (o, h) → entityId o ≠ A →
        bindings' !! i = Some (o, h).
Proof.
  intros Hp HA.
  induction bindings as [|[o h] rest (rest' & Hrest & IH)]; cbn [notifyListeners].
  - by exists [].
  - destruct (onEntityUpdate_returns o now h data p Hp) as [h' Hh'].
    rewrite Hh', Hrest. cbn [obind]. eexists; split; [done|].
    intros [|i] o1 h1; cbn.
    + intros [= <- <-] Hne.
      rewrite (onEntityUpdate_other_entity o now h data p Hp) in Hh'
        by (rewrite HA; congruence).
      congruence.
    + apply IH.
Qed.

Lemma entity_isolation_witness :
  ∃ bindings',
    notifyListeners 2000 (entityUpdate (Some "player-2") (TObject player_there))
      [(observer_2, mount observer_2 1000); (observer, mount observer 1000)]
    = Returns bindings'
    ∧ bindings' !! 1%nat = Some (observer, mount observer 1000).
Proof.
  destruct (entity_isolation 2000
              (entityUpdate (Some "player-2") (TObject player_there))
              (mkPayload (Some "player-2") (TObject player_there)) "player-2"
              [(observer_2, mount observer_2 1000); (observer, mount observer 1000)]
              eq_refl eq_refl) as (bindings' & Hrun & Hsame).
  exists bindings'. split; [exact Hrun|].
  apply Hsame; [reflexivity|]. vm_compute. discriminate.
Defined.

(** ** The broadcast tick *)

Lemma broadcasting_owner o g roomId :
  broadcasting o g = Some roomId → isOwner o = true.
Proof. unfold broadcasting. by destruct (isOwner o). Qed.

Lemma receive_owner o g h ev : isOwner o = true → receive o g h ev = h.
Proof.
  intros Ho. unfold receive, onEntityUpdate. rewrite Ho.
  destruct (subscribed g); [|done].
  destruct (payload ev.2); by repeat case_bool_decide.
Qed.

Lemma broadcastTick_clears o roomId h :
  truthy (pendingUpdateRef (broadcastTick o roomId h).1) = false.
Proof.
  unfold broadcastTick. by destruct (truthy (pendingUpdateRef h)) eqn:E.
Qed.

(** C9: for an Owner, when no [setNetworkState] call happens between two
    ticks (inbound events may arrive in between), the second tick emits
    nothing. *)
Theorem owner_silence o g roomId h (inbound : list (float * CustomEvent)) :
  broadcasting o g = Some roomId →
  let after_tick := (broadcastTick o roomId h).1 in
  (broadcastTick o roomId (foldl (receive o g) after_tick inbound)).2 = [].
Proof.
  intros Ho%broadcasting_owner after_tick.
  assert (foldl (receive o g) after_tick inbound = after_tick) as ->.
  { induction inbound as [|ev rest IH]; [done|].
    cbn [foldl]. by rewrite receive_owner. }
  pose proof (broadcastTick_clears o roomId h) as Hclear.
  fold after_tick in Hclear.
  unfold broadcastTick at 1. by rewrite Hclear.
Qed.

Lemma owner_silence_witness :
  broadcasting owner in_room = Some "room-1"
  ∧ (broadcastTick owner "room-1"
       (foldl (receive owner in_room)
          (broadcastTick owner "room-1"
             (setNetworkState_updater owner (mount owner 1000)
                (NewValue player_there))).1
          [(2000%float, entityUpdate (Some "player-1") (TObject player_renamed));
           (2010%float, update_without_payload)])).2
    = [].
Proof.
  split; [reflexivity|].
  apply (owner_silence owner in_room "room-1"
           (setNetworkState_updater owner (mount owner 1000)
              (NewValue player_there))
           [(2000%float, entityUpdate (Some "player-1") (TObject player_renamed));
            (2010%float, update_without_payload)]).
  reflexivity.
Defined.

(** ** The render tick *)

Lemma animate_at_target o now h :
  (0 <? broadcastRate o)%float = true →
  (broadcastRate o * 1.5 <=? now - lastUpdateTsRef h)%float = true →
  animate o now h = Returns (setState h (targetStateRef h)).
Proof.
  intros Hrate Hlate. unfold animate.
  pose proof (Binary64.div_ge_one (now - lastUpdateTsRef h) (broadcastRate o * 1.5)
                (Binary64.mul_pos _ Hrate) Hlate) as Ht.
  destruct (1 <? (now - lastUpdateTsRef h) / (broadcastRate o * 1.5))%float.
  - by change (1 <? 1)%float with false.
  - by rewrite Ht.
Qed.

Lemma animate_returns o now h :
  truthy (lastStateRef h) = true → truthy (targetStateRef h) = true →
  ∃ v, animate o now h = Returns (setState h v).
Proof.
  intros Hlast Htarget. unfold animate.
  destruct (lastStateRef h) as [| |cur]; try done.
  destruct (targetStateRef h) as [| |tgt]; try done.
  cbn [interpolateState_rt obind].
  destruct (_ <? 1)%float; eauto.
Qed.

Lemma animateAll_cursor o frames : ∀ h,
  truthy (lastStateRef h) = true → truthy (targetStateRef h) = true →
  ∃ h', animateAll o frames h = Returns h'
        ∧ targetStateRef h' = targetStateRef h
        ∧ lastStateRef h' = lastStateRef h
        ∧ lastUpdateTsRef h' = lastUpdateTsRef h.
Proof.
  induction frames as [|now rest IH]; intros h Hlast Htarget; cbn [animateAll].
  - by exists h.
  - destruct (animate_returns o now h Hlast Htarget) as [v ->]. cbn [obind].
    destruct (IH (setState h v) Hlast Htarget) as (h' & Hrun & ? & ? & ?).
    by exists h'.
Qed.

(** Half way through the window the visible state is half way between the
    last visual state and the target on the numeric field they share; the
    field only the target has is taken from it and the field only the last
    visual state has is kept. *)
Example animate_mid_flight :
  animate observer 2075
    (mkHook (TObject player_here) (TObject player_there) (TObject player_here)
            2000 TNull)
  = Returns (mkHook (TObject {[ "x" := VNumber 2%float; "y" := VNumber 2%float;
                                "name" := VString "ann" ]})
                    (TObject player_there) (TObject player_here) 2000 TNull).
Proof. by vm_compute. Qed.

(** Once the visible state is [undefined], the next frame that interpolates
    towards a target with a numeric field throws. *)
Example animate_from_undefined :
  animate observer 2075
    (mkHook TUndefined (TObject player_there) TUndefined 2000 TNull)
  = Throws TypeError.
Proof. by vm_compute. Qed.

(** C4: an interpolating Observer whose interval is positive receives one
    update with target [s] at time [T0]; whatever frames were rendered
    since, a frame at a time [now] with [now - T0] at least
    [broadcastRate * 1.5] sets the visible state to exactly [s]. *)
Theorem observer_converges o h (T0 : float) (s : estate)
    (frames : list float) (now : float) :
  animating o = true →
  (0 <? broadcastRate o)%float = true →
  truthy (state h) = true →
  (broadcastRate o * 1.5 <=? now - T0)%float = true →
  ∃ h1 h2 h3,
    onEntityUpdate o T0 h (entityUpdate (Some (entityId o)) (TObject s))
    = Returns h1
    ∧ animateAll o frames h1 = Returns h2
    ∧ animate o now h2 = Returns h3
    ∧ state h3 = TObject s.
Proof.
  intros [Ho%negb_true_iff Hinterp]%andb_prop Hrate Hstate Hlate.
  eexists (mkHook (state h) (TObject s) (state h) T0 (pendingUpdateRef h)).
  destruct (animateAll_cursor o frames
              (mkHook (state h) (TObject s) (state h) T0 (pendingUpdateRef h))
              Hstate eq_refl) as (h2 & Hrun & Htarget & _ & Hts).
  cbn [targetStateRef lastUpdateTsRef] in Htarget, Hts.
  exists h2, (setState h2 (TObject s)).
  split; [|split; [done|split; [|done]]].
  - unfold onEntityUpdate, entityUpdate. cbn [event payload p_entityId p_state].
    rewrite Ho, Hinterp. by rewrite !bool_decide_eq_true_2.
  - rewrite <- Htarget. apply animate_at_target; [done|]. by rewrite Hts.
Qed.

Lemma observer_converges_witness :
  ∃ h1 h2 h3,
    onEntityUpdate observer 2000 (mount observer 1000)
      (entityUpdate (Some "player-1") (TObject player_there))
    = Returns h1
    ∧ animateAll observer [2016; 2075; 2149]%float h1 = Returns h2
    ∧ animate observer 2150 h2 = Returns h3
    ∧ state h3 = TObject player_there.
Proof.
  apply (observer_converges observer (mount observer 1000) 2000 player_there
           [2016; 2075; 2149]%float 2150); reflexivity.
Defined.

(** * More of the interpolator *)

(** X1: a field that holds a number in both states is, in the result, the
    [lerp] of the two numbers. *)
Theorem interpolateState_numeric (currentState targetState : estate)
    (t : float) (key : string) (s e : float) :
  currentState !! key = Some (VNumber s) →
  targetState !! key = Some (VNumber e) →
  interpolateState currentState targetState t !! key
  = Some (VNumber (lerp s e t)).
Proof.
  intros Hs He. rewrite interpolateState_lookup, He.
  unfold assigned, get. by rewrite Hs.
Qed.

Lemma interpolateState_numeric_witness :
  interpolateState player_here player_there d0_3 !! "x"
  = Some (VNumber (lerp 1 3 d0_3)).
Proof.
  apply (interpolateState_numeric player_here player_there d0_3 "x" 1 3);
    reflexivity.
Defined.

(** X2: interpolating from the empty state gives the target as it is, and
    interpolating towards the empty state gives the current state as it
    is, whatever [t]. *)
Theorem interpolateState_empty (currentState targetState : estate) (t : float) :
  interpolateState ∅ targetState t = targetState
  ∧ interpolateState currentState ∅ t = currentState.
Proof.
  split.
  - apply map_eq. intros key. rewrite interpolateState_lookup.
    destruct (targetState !! key) as [v|] eqn:E; [|done].
    unfold assigned, get. rewrite lookup_empty. by destruct v.
  - unfold interpolateState. apply map_fold_empty.
Qed.

(** X3: for a field that holds a finite number in both states, the result
    at [t = 0] holds a number equal to the current one and the result at
    [t = 1] a number equal to the target's. *)
Theorem interpolateState_at_ends (currentState targetState : estate)
    (key : string) (s e : float) :
  currentState !! key = Some (VNumber s) →
  targetState !! key = Some (VNumber e) →
  is_finite s = true → is_finite e = true →
  ∃ r0 r1,
    interpolateState currentState targetState 0 !! key = Some (VNumber r0)
    ∧ (r0 =? s)%float = true
    ∧ interpolateState currentState targetState 1 !! key = Some (VNumber r1)
    ∧ (r1 =? e)%float = true.
Proof.
  intros Hs He Fs Fe. exists (lerp s e 0), (lerp s e 1).
  rewrite !interpolateState_lookup, He. unfold assigned, get. rewrite Hs.
  cbn [default].
  split; [done|]. split; [by apply Binary64.lerp_at_0|].
  split; [done|]. by apply Binary64.lerp_at_1.
Qed.

Lemma interpolateState_at_ends_witness :
  ∃ r0 r1,
    interpolateState player_here player_there 0 !! "x" = Some (VNumber r0)
    ∧ (r0 =? 1)%float = true
    ∧ interpolateState player_here player_there 1 !! "x" = Some (VNumber r1)
    ∧ (r1 =? 3)%float = true.
Proof.
  apply (interpolateState_at_ends player_here player_there "x" 1 3);
    reflexivity.
Defined.

(** * A binding over time *)

Lemma emitted_app out1 out2 :
  emitted (out1 ++ out2) = (emitted out1 ++ emitted out2)%list.
Proof. apply omap_app. Qed.

Lemma uncaught_app out1 out2 :
  uncaught (out1 ++ out2) = (uncaught out1 ++ uncaught out2)%list.
Proof. apply omap_app. Qed.

Lemma emitted_fmap ms : emitted (Emitted <$> ms) = ms.
Proof. induction ms as [|m ms IH]; [done|]. cbn. f_equal. exact IH. Qed.

Lemma uncaught_fmap ms : uncaught (Emitted <$> ms) = [].
Proof. by induction ms. Qed.

(** What the handler and the frame leave alone. *)
Lemma onEntityUpdate_pending o now h data h' :
  onEntityUpdate o now h data = Returns h' →
  pendingUpdateRef h' = pendingUpdateRef h.
Proof.
  unfold onEntityUpdate.
  destruct (payload data), (isOwner o), (enableInterpolation o);
    repeat case_bool_decide; cbn; intros ?; by simplify_eq.
Qed.

Lemma animate_refs o now h h' :
  animate o now h = Returns h' →
  targetStateRef h' = targetStateRef h ∧ lastStateRef h' = lastStateRef h
  ∧ lastUpdateTsRef h' = lastUpdateTsRef h
  ∧ pendingUpdateRef h' = pendingUpdateRef h.
Proof.
  unfold animate. destruct (_ <? 1)%float.
  - destruct (interpolateState_rt _ _ _) as [v|]; cbn; [|done].
    by intros [= <-].
  - by intros [= <-].
Qed.

Lemma animate_returns_object o now h :
  truthy (lastStateRef h) = true → truthy (targetStateRef h) = true →
  ∃ v, truthy v = true ∧ animate o now h = Returns (setState h v).
Proof.
  intros Hlast Htarget. unfold animate.
  destruct (lastStateRef h) as [| |cur]; try done.
  destruct (targetStateRef h) as [| |tgt]; try done.
  cbn [interpolateState_rt obind].
  destruct (_ <? 1)%float; eexists; (split; [|reflexivity]); done.
Qed.

Lemma broadcastTick_hook o roomId h :
  state (broadcastTick o roomId h).1 = state h
  ∧ targetStateRef (broadcastTick o roomId h).1 = targetStateRef h
  ∧ lastStateRef (broadcastTick o roomId h).1 = lastStateRef h
  ∧ lastUpdateTsRef (broadcastTick o roomId h).1 = lastUpdateTsRef h.
Proof. unfold broadcastTick. by destruct (truthy (pendingUpdateRef h)). Qed.

(** What React's run of the queue leaves alone, and what it gives. *)
Lemma runUpdaters_cons o h n queue :
  runUpdaters o h (n :: queue)
  = runUpdaters o (setNetworkState_updater o h n) queue.
Proof. done. Qed.

Lemma runUpdaters_app o h queue1 queue2 :
  runUpdaters o h (queue1 ++ queue2)
  = runUpdaters o (runUpdaters o h queue1) queue2.
Proof. apply foldl_app. Qed.

Lemma runUpdaters_snoc o h queue n :
  runUpdaters o h (queue ++ [n])
  = setNetworkState_updater o (runUpdaters o h queue) n.
Proof. by rewrite runUpdaters_app. Qed.

Lemma runUpdaters_refs o queue : ∀ h,
  targetStateRef (runUpdaters o h queue) = targetStateRef h
  ∧ lastStateRef (runUpdaters o h queue) = lastStateRef h
  ∧ lastUpdateTsRef (runUpdaters o h queue) = lastUpdateTsRef h.
Proof.
  induction queue as [|n queue IH]; intros h; [done|].
  rewrite runUpdaters_cons.
  by destruct (IH (setNetworkState_updater o h n)) as (-> & -> & ->).
Qed.

Lemma runUpdaters_observer o queue : ∀ h,
  isOwner o = false →
  pendingUpdateRef (runUpdaters o h queue) = pendingUpdateRef h.
Proof.
  induction queue as [|n queue IH]; intros h Ho; [done|].
  rewrite runUpdaters_cons, (IH _ Ho).
  unfold setNetworkState_updater. by rewrite Ho.
Qed.

Lemma runUpdaters_state o (queue : list SetStateAction) : ∀ h h',
  state h = state h' →
  state (runUpdaters o h queue) = state (runUpdaters o h' queue).
Proof.
  induction queue as [|n queue IH]; intros h h' Hs; [done|].
  rewrite !runUpdaters_cons. apply IH. cbn. by rewrite Hs.
Qed.

Lemma runUpdaters_truthy o queue : ∀ h,
  truthy (state h) = true → truthy (state (runUpdaters o h queue)) = true.
Proof.
  induction queue as [|n queue IH]; intros h Hs; [done|].
  rewrite runUpdaters_cons. by apply IH.
Qed.

(** After the last updater of an Owner ran, the buffer holds what the
    Owner shows: the value the updater resolved to. *)
Lemma runUpdaters_owner o h queue n :
  isOwner o = true →
  pendingUpdateRef (runUpdaters o h (queue ++ [n]))
  = TObject (resolve n (state (runUpdaters o h queue)))
  ∧ state (runUpdaters o h (queue ++ [n]))
    = TObject (resolve n (state (runUpdaters o h queue))).
Proof.
  intros Ho. rewrite runUpdaters_snoc. unfold setNetworkState_updater.
  by rewrite Ho.
Qed.

Lemma runUpdaters_staged o queue : ∀ h,
  sublist (staged (runUpdaters o h queue))
          (staged h ++ resolutions o h queue)%list.
Proof.
  induction queue as [|n queue IH]; intros h.
  - cbn. by rewrite app_nil_r.
  - rewrite runUpdaters_cons. cbn [resolutions].
    etrans; [apply (IH (setNetworkState_updater o h n))|].
    change (?x :: ?l) with ([x] ++ l)%list. rewrite (assoc_L (++)%list).
    apply sublist_app; [|reflexivity].
    unfold staged at 1, setNetworkState_updater.
    cbn [pendingUpdateRef state]. destruct (isOwner o); cbn [truthy].
    + by apply sublist_inserts_l.
    + fold (staged h). by apply sublist_inserts_r.
Qed.

(** One step of an Observer: nothing is emitted, the buffer is as before. *)
Lemma step_observer o g b a :
  isOwner o = false →
  emitted (step o g b a).2 = []
  ∧ pendingUpdateRef (b_hook (step o g b a).1) = pendingUpdateRef (b_hook b).
Proof.
  intros Ho. destruct a as [n|now data| |now|]; cbn [step].
  - done.
  - destruct (subscribed g); [|done].
    destruct (onEntityUpdate o now (b_hook b) data) as [h'|] eqn:E; [|done].
    split; [done|]. by apply onEntityUpdate_pending in E.
  - unfold broadcasting. by rewrite Ho.
  - destruct (animating o && b_looping b); [|done].
    destruct (animate o now (b_hook b)) as [h'|] eqn:E; [|done].
    split; [done|]. by apply animate_refs in E as (_ & _ & _ & ?).
  - split; [done|]. by apply runUpdaters_observer.
Qed.

(** X4: an Observer never emits a message and never stages one, whatever
    is done to it: local writes, renders, inbound events, timer ticks,
    frames. *)
Theorem observer_never_emits o g b (acts : list action) :
  isOwner o = false →
  emitted (run o g b acts).2 = []
  ∧ pendingUpdateRef (b_hook (run o g b acts).1) = pendingUpdateRef (b_hook b).
Proof.
  intros Ho. revert b.
  induction acts as [|a rest IH]; intros b; [done|].
  cbn [run fst snd].
  destruct (step_observer o g b a Ho) as [He Hp].
  destruct (IH (step o g b a).1) as [He' Hp'].
  rewrite emitted_app, He, He', Hp'. by rewrite Hp.
Qed.

Lemma observer_never_emits_witness :
  emitted (run observer in_room (start observer 1000)
             [Write (NewValue player_there); Render;
              Inbound 2000 (entityUpdate (Some "player-1") (TObject player_renamed));
              IntervalTick; AnimationFrame 2075; IntervalTick]).2 = []
  ∧ pendingUpdateRef
      (b_hook (run observer in_room (start observer 1000)
                 [Write (NewValue player_there); Render;
                  Inbound 2000 (entityUpdate (Some "player-1") (TObject player_renamed));
                  IntervalTick; AnimationFrame 2075; IntervalTick]).1)
    = TNull.
Proof.
  apply (observer_never_emits observer in_room (start observer 1000)).
  reflexivity.
Defined.

(** One step of an Owner: a call queues, a render runs the queue, a tick
    leaves what the Owner shows and the queue, anything else changes
    nothing. *)
Lemma step_owner o g b a :
  isOwner o = true →
  match a with
  | Write n => (step o g b a).1 = setNetworkState b n
  | Render => (step o g b a).1 = render o b
  | IntervalTick =>
      state (b_hook (step o g b a).1) = state (b_hook b)
      ∧ b_queue (step o g b a).1 = b_queue b
  | _ => (step o g b a).1 = b
  end.
Proof.
  intros Ho. destruct a as [n|now data| |now|]; cbn [step].
  - done.
  - destruct (subscribed g); [|done].
    unfold onEntityUpdate. rewrite Ho.
    destruct (payload data); repeat case_bool_decide; by destruct b.
  - destruct (broadcasting o g); [|done]. cbn. split; [|done].
    apply broadcastTick_hook.
  - unfold animating. by rewrite Ho.
  - done.
Qed.

(** X5: what an Owner shows is decided by its own writes alone: after any
    sequence of actions, once React has rendered, the visible state is the
    one the updaters of the [setNetworkState] calls (those still queued at
    the start, then those of the sequence) give by themselves. *)
Theorem owner_shows_own_writes o g b (acts : list action) :
  isOwner o = true →
  state (b_hook (render o (run o g b acts).1))
  = state (runUpdaters o (b_hook b) (b_queue b ++ writes acts)).
Proof.
  intros Ho. revert b.
  induction acts as [|a rest IH]; intros b.
  - cbn. by rewrite app_nil_r.
  - cbn [run fst]. rewrite IH.
    pose proof (step_owner o g b a Ho) as Hstep.
    destruct a as [n|now data| |now|]; cbn [writes omap]; fold (writes rest).
    + rewrite Hstep. cbn. by rewrite <- (assoc_L (++)%list).
    + by rewrite Hstep.
    + destruct Hstep as [Hs ->]. by apply runUpdaters_state.
    + by rewrite Hstep.
    + rewrite Hstep. cbn. by rewrite runUpdaters_app.
Qed.

Lemma owner_shows_own_writes_witness :
  state (b_hook (render owner
           (run owner in_room (start owner 1000)
              [Write (NewValue player_there); Render;
               Inbound 2000 (entityUpdate (Some "player-1") (TObject player_renamed));
               IntervalTick; Write (NewValue player_renamed);
               AnimationFrame 2075]).1))
  = TObject player_renamed.
Proof.
  apply (owner_shows_own_writes owner in_room (start owner 1000)
           [Write (NewValue player_there); Render;
            Inbound 2000 (entityUpdate (Some "player-1") (TObject player_renamed));
            IntervalTick; Write (NewValue player_renamed);
            AnimationFrame 2075]).
  reflexivity.
Defined.

(** One step seen from the buffer: what is emitted, followed by what is
    then staged, is drawn in order from what was staged before followed by
    what the updaters run in the step resolved to. *)
Lemma step_staged o g b a :
  sublist
    ((m_state <$> emitted (step o g b a).2)
       ++ staged (b_hook (step o g b a).1))%list
    (staged (b_hook b) ++ written o g b [a])%list.
Proof.
  destruct a as [n|now data| |now|]; cbn [step written].
  - by rewrite app_nil_r.
  - rewrite app_nil_r. destruct (subscribed g); [|done].
    destruct (onEntityUpdate o now (b_hook b) data) as [h'|] eqn:E; [|done].
    cbn. unfold staged. by rewrite (onEntityUpdate_pending _ _ _ _ _ E).
  - rewrite app_nil_r. destruct (broadcasting o g) as [roomId|]; [|done].
    cbn [fst snd b_hook]. rewrite emitted_fmap.
    unfold broadcastTick, staged.
    by destruct (truthy (pendingUpdateRef (b_hook b))) eqn:E; cbn; rewrite ?E.
  - rewrite app_nil_r. destruct (animating o && b_looping b); [|done].
    destruct (animate o now (b_hook b)) as [h'|] eqn:E; [|done].
    cbn. unfold staged. apply animate_refs in E as (_ & _ & _ & ->). done.
  - rewrite app_nil_r. cbn. apply runUpdaters_staged.
Qed.

Lemma written_cons o g b a rest :
  written o g b (a :: rest)
  = (written o g b [a] ++ written o g (step o g b a).1 rest)%list.
Proof. destruct a; cbn [written]; by rewrite ?app_nil_r. Qed.

Lemma run_staged o g (acts : list action) : ∀ b,
  sublist
    ((m_state <$> emitted (run o g b acts).2)
       ++ staged (b_hook (run o g b acts).1))%list
    (staged (b_hook b) ++ written o g b acts)%list.
Proof.
  induction acts as [|a rest IH]; intros b.
  - cbn. by rewrite app_nil_r.
  - cbn [run fst snd]. rewrite emitted_app, fmap_app, written_cons.
    rewrite <- !(assoc_L (++)%list).
    etrans; [apply sublist_app; [reflexivity|apply IH]|].
    rewrite !(assoc_L (++)%list).
    apply sublist_app; [apply step_staged|reflexivity].
Qed.

(** X6: starting with an empty buffer, the states a binding emits are, in
    order, some of the values the updaters of its [setNetworkState] calls
    resolved to: nothing is invented, repeated or sent out of order. *)
Theorem emits_only_what_was_written o g b (acts : list action) :
  truthy (pendingUpdateRef (b_hook b)) = false →
  sublist (m_state <$> emitted (run o g b acts).2) (written o g b acts).
Proof.
  intros Hempty. pose proof (run_staged o g acts b) as H.
  unfold staged at 2 in H. rewrite Hempty in H. cbn [app] in H.
  etrans; [|exact H]. by apply sublist_inserts_r.
Qed.

Lemma emits_only_what_was_written_witness :
  sublist
    (m_state <$> emitted (run owner in_room (start owner 1000)
       [Write (NewValue player_there); Write (NewValue player_renamed);
        Render; IntervalTick; IntervalTick; Write (NewValue player_here);
        IntervalTick; Render; IntervalTick]).2)
    [TObject player_there; TObject player_renamed; TObject player_here].
Proof.
  apply (emits_only_what_was_written owner in_room (start owner 1000)
    [Write (NewValue player_there); Write (NewValue player_renamed);
     Render; IntervalTick; IntervalTick; Write (NewValue player_here);
     IntervalTick; Render; IntervalTick]).
  reflexivity.
Defined.

(** The example above emits the second value at its first tick and the
    third at its last: the tick between the third call and the render
    that runs its updater emits nothing. *)
Example owner_run_sample :
  m_state <$> emitted (run owner in_room (start owner 1000)
    [Write (NewValue player_there); Write (NewValue player_renamed);
     Render; IntervalTick; IntervalTick; Write (NewValue player_here);
     IntervalTick; Render; IntervalTick]).2
  = [TObject player_renamed; TObject player_here].
Proof. by vm_compute. Qed.

Lemma step_emits o g b a m :
  m ∈ emitted (step o g b a).2 →
  a = IntervalTick
  ∧ emitted (step o g b a).2 = [m]
  ∧ broadcasting o g = Some (m_roomId m)
  ∧ m_event m = "entity:update"
  ∧ m_entityId m = entityId o
  ∧ m_state m = pendingUpdateRef (b_hook b)
  ∧ truthy (m_state m) = true.
Proof.
  destruct a as [n|now data| |now|]; cbn [step].
  - by intros ?%elem_of_nil.
  - destruct (subscribed g), (onEntityUpdate o now (b_hook b) data);
      by intros ?%elem_of_nil.
  - destruct (broadcasting o g) as [roomId|]; [|by intros ?%elem_of_nil].
    cbn [snd]. rewrite emitted_fmap. unfold broadcastTick.
    destruct (truthy (pendingUpdateRef (b_hook b))) eqn:E;
      [|by intros ?%elem_of_nil].
    cbn [snd]. by intros ->%list_elem_of_singleton.
  - destruct (animating o && b_looping b), (animate o now (b_hook b));
      by intros ?%elem_of_nil.
  - by intros ?%elem_of_nil.
Qed.

(** X7: a binding emits at most one message for each tick of its interval
    timer. *)
Theorem one_message_per_tick o g b (acts : list action) :
  (length (emitted (run o g b acts).2)
   ≤ length (filter is_interval_tick acts))%nat.
Proof.
  revert b. induction acts as [|a rest IH]; intros b; [done|].
  cbn [run snd]. rewrite emitted_app, length_app.
  specialize (IH (step o g b a).1).
  destruct (emitted (step o g b a).2) as [|m ms] eqn:E.
  - rewrite filter_cons.
    destruct (decide _); cbn [length app Nat.add] in *; lia.
  - destruct (step_emits o g b a m) as (-> & Hone & _).
    { rewrite E. by left. }
    rewrite Hone in E. injection E as <-.
    rewrite filter_cons_True by done. cbn [length app Nat.add] in *. lia.
Qed.

(** X8: every message a binding emits comes from a connected Owner in a
    room and is addressed to that room, under the event name
    ['entity:update'], tagged with the binding's entityId, and carries an
    object (never [null] or [undefined]). *)
Theorem emitted_messages_are_addressed o g b (acts : list action) m :
  m ∈ emitted (run o g b acts).2 →
  broadcasting o g = Some (m_roomId m)
  ∧ m_event m = "entity:update"
  ∧ m_entityId m = entityId o
  ∧ truthy (m_state m) = true.
Proof.
  revert b. induction acts as [|a rest IH]; intros b.
  - by intros ?%elem_of_nil.
  - cbn [run snd]. rewrite emitted_app, elem_of_app. intros [Hm|Hm].
    + by destruct (step_emits o g b a m Hm) as (_ & _ & ? & ? & ? & _ & ?).
    + by apply (IH (step o g b a).1).
Qed.

Lemma emitted_messages_are_addressed_witness :
  broadcasting owner in_room = Some "room-1"
  ∧ m_event (mkMessage "room-1" "entity:update" "player-1" (TObject player_there))
    = "entity:update".
Proof.
  destruct (emitted_messages_are_addressed owner in_room (start owner 1000)
              [Write (NewValue player_there); Render; IntervalTick]
              (mkMessage "room-1" "entity:update" "player-1" (TObject player_there)))
    as (Hroom & Hevent & _).
  - vm_compute. by left.
  - split; [exact Hroom | exact Hevent].
Defined.

Lemma step_well_formed o g b a :
  well_formed a = true → slots_hold_objects (b_hook b) = true →
  uncaught (step o g b a).2 = []
  ∧ slots_hold_objects (b_hook (step o g b a).1) = true.
Proof.
  unfold slots_hold_objects.
  intros Hwf [[Hs Ht]%andb_prop Hl]%andb_prop.
  destruct a as [n|now data| |now|]; cbn [step].
  - cbn. by rewrite Hs, Ht, Hl.
  - destruct (subscribed g); [|cbn; by rewrite Hs, Ht, Hl].
    cbn [well_formed] in Hwf. unfold onEntityUpdate.
    destruct (payload data) as [p|]; [|done].
    repeat case_bool_decide; destruct (isOwner o), (enableInterpolation o);
      cbn; by rewrite ?Hs, ?Ht, ?Hl, ?Hwf.
  - destruct (broadcasting o g) as [roomId|]; [|cbn; by rewrite Hs, Ht, Hl].
    cbn [fst snd b_hook]. rewrite uncaught_fmap.
    destruct (broadcastTick_hook o roomId (b_hook b)) as (-> & -> & -> & _).
    by rewrite Hs, Ht, Hl.
  - destruct (animating o && b_looping b); [|cbn; by rewrite Hs, Ht, Hl].
    destruct (animate_returns_object o now (b_hook b) Hl Ht) as (v & Hv & ->).
    cbn. by rewrite Hv, Ht, Hl.
  - cbn [fst snd render b_hook]. split; [done|].
    destruct (runUpdaters_refs o (b_queue b) (b_hook b)) as (-> & -> & _).
    by rewrite (runUpdaters_truthy _ _ _ Hs), Ht, Hl.
Qed.

(** X9: a binding whose visible state, target and last visual state are
    objects, and whose inbound events all carry a payload with an object
    as [state], never lets an exception escape, and the three slots stay
    objects. *)
Theorem well_formed_run_never_throws o g b (acts : list action) :
  forallb well_formed acts = true →
  slots_hold_objects (b_hook b) = true →
  uncaught (run o g b acts).2 = []
  ∧ slots_hold_objects (b_hook (run o g b acts).1) = true.
Proof.
  revert b. induction acts as [|a rest IH]; intros b Hwf Hb; [done|].
  cbn [forallb] in Hwf. apply andb_prop in Hwf as [Ha Hrest].
  destruct (step_well_formed o g b a Ha Hb) as [Hu Hb1].
  destruct (IH (step o g b a).1 Hrest Hb1) as [Hu' Hb'].
  cbn [run fst snd]. by rewrite uncaught_app, Hu, Hu'.
Qed.

Lemma well_formed_run_never_throws_witness :
  uncaught (run observer in_room (start observer 1000)
    [Inbound 2000 (entityUpdate (Some "player-1") (TObject player_there));
     AnimationFrame 2075; Write (NewValue player_renamed); Render;
     AnimationFrame 2090]).2 = []
  ∧ slots_hold_objects (b_hook (run observer in_room (start observer 1000)
    [Inbound 2000 (entityUpdate (Some "player-1") (TObject player_there));
     AnimationFrame 2075; Write (NewValue player_renamed); Render;
     AnimationFrame 2090]).1) = true.
Proof.
  apply (well_formed_run_never_throws observer in_room (start observer 1000));
    reflexivity.
Defined.

(** Without the payload's [state] the same run ends the animation loop
    with a TypeError: [undefined] becomes the visible state at the frame
    past the window, and the next update finds nothing to start from. *)
Example malformed_run_throws :
  uncaught (run observer in_room (start observer 1000)
    [Inbound 2000 (entityUpdate (Some "player-1") TUndefined);
     AnimationFrame 2200;
     Inbound 2300 (entityUpdate (Some "player-1") (TObject player_there));
     AnimationFrame 2310; AnimationFrame 2500]).2
  = [TypeError].
Proof. by vm_compute. Qed.

Lemma step_cursor o g b a :
  is_inbound a = false →
  targetStateRef (b_hook (step o g b a).1) = targetStateRef (b_hook b)
  ∧ lastStateRef (b_hook (step o g b a).1) = lastStateRef (b_hook b)
  ∧ lastUpdateTsRef (b_hook (step o g b a).1) = lastUpdateTsRef (b_hook b).
Proof.
  destruct a as [n|now data| |now|]; cbn [step is_inbound]; intros Ha;
    try done.
  - destruct (broadcasting o g) as [roomId|]; [|done].
    cbn. by destruct (broadcastTick_hook o roomId (b_hook b)) as (_ & ? & ? & ?).
  - destruct (animating o && b_looping b); [|done].
    destruct (animate o now (b_hook b)) as [h'|] eqn:E; [|done].
    cbn. by apply animate_refs in E as (? & ? & ? & _).
  - apply runUpdaters_refs.
Qed.

(** X10: only an inbound event moves the interpolation cursor: local
    writes, renders, timer ticks and frames leave the target, the last
    visual state and the arrival timestamp as they were. *)
Theorem cursor_moves_only_on_inbound o g b (acts : list action) :
  forallb (λ a, negb (is_inbound a)) acts = true →
  targetStateRef (b_hook (run o g b acts).1) = targetStateRef (b_hook b)
  ∧ lastStateRef (b_hook (run o g b acts).1) = lastStateRef (b_hook b)
  ∧ lastUpdateTsRef (b_hook (run o g b acts).1) = lastUpdateTsRef (b_hook b).
Proof.
  revert b. induction acts as [|a rest IH]; intros b Hacts; [done|].
  cbn [forallb] in Hacts. apply andb_prop in Hacts as [Ha%negb_true_iff Hrest].
  destruct (step_cursor o g b a Ha) as (Ht & Hl & Hts).
  destruct (IH (step o g b a).1 Hrest) as (Ht' & Hl' & Hts').
  cbn [run fst]. by rewrite Ht', Hl', Hts', Ht, Hl, Hts.
Qed.

Lemma cursor_moves_only_on_inbound_witness :
  targetStateRef (b_hook (run observer in_room (start observer 1000)
    [AnimationFrame 1016; Write (NewValue player_there); Render; IntervalTick;
     AnimationFrame 1200]).1) = TObject player_here
  ∧ lastStateRef (b_hook (run observer in_room (start observer 1000)
    [AnimationFrame 1016; Write (NewValue player_there); Render; IntervalTick;
     AnimationFrame 1200]).1) = TObject player_here
  ∧ lastUpdateTsRef (b_hook (run observer in_room (start observer 1000)
    [AnimationFrame 1016; Write (NewValue player_there); Render; IntervalTick;
     AnimationFrame 1200]).1) = 1000%float.
Proof.
  apply (cursor_moves_only_on_inbound observer in_room (start observer 1000)
    [AnimationFrame 1016; Write (NewValue player_there); Render; IntervalTick;
     AnimationFrame 1200]).
  reflexivity.
Defined.

(** An Owner while no tick fires, or while its interval is not running:
    nothing is emitted, and what the next render leaves in the binding is
    what the updaters of the calls give, run one after the other. *)
Lemma step_owner_quiet o g b a :
  isOwner o = true →
  is_interval_tick a = false ∨ broadcasting o g = None →
  emitted (step o g b a).2 = []
  ∧ b_hook (render o (step o g b a).1)
    = runUpdaters o (b_hook (render o b)) (writes [a]).
Proof.
  intros Ho Hquiet. pose proof (step_owner o g b a Ho) as Hstep.
  destruct a as [n|now data| |now|]; cbn [writes omap runUpdaters foldl].
  - rewrite Hstep. split; [done|].
    cbn [render setNetworkState b_hook b_queue]. by rewrite runUpdaters_snoc.
  - rewrite Hstep. split; [|done]. cbn [step].
    by destruct (subscribed g), (onEntityUpdate o now (b_hook b) data).
  - destruct Hquiet as [?|Hoff]; [done|]. cbn [step]. by rewrite Hoff.
  - rewrite Hstep. split; [|done]. cbn [step].
    by destruct (animating o && b_looping b), (animate o now (b_hook b)).
  - rewrite Hstep. by split.
Qed.

Lemma writes_cons a rest : writes (a :: rest) = (writes [a] ++ writes rest)%list.
Proof. by destruct a. Qed.

Lemma run_owner_quiet o g (acts : list action) : ∀ b,
  isOwner o = true →
  forallb (λ a, negb (is_interval_tick a)) acts = true
  ∨ broadcasting o g = None →
  emitted (run o g b acts).2 = []
  ∧ b_hook (render o (run o g b acts).1)
    = runUpdaters o (b_hook (render o b)) (writes acts).
Proof.
  induction acts as [|a rest IH]; intros b Ho Hquiet; [done|].
  assert (Ha : is_interval_tick a = false ∨ broadcasting o g = None).
  { destruct Hquiet as [[?%negb_true_iff _]%andb_prop|?]; [by left|by right]. }
  assert (Hrest : forallb (λ a, negb (is_interval_tick a)) rest = true
                  ∨ broadcasting o g = None).
  { destruct Hquiet as [[_ ?]%andb_prop|?]; [by left|by right]. }
  destruct (step_owner_quiet o g b a Ho Ha) as [He Hh].
  destruct (IH (step o g b a).1 Ho Hrest) as [He' Hh'].
  cbn [run fst snd].
  rewrite emitted_app, He, He', Hh', Hh, (writes_cons a rest).
  by rewrite runUpdaters_app.
Qed.

(** X11: what an Owner writes while its interval is not running (not
    connected, or in no room) is not sent and not lost: when the provider
    reports the connection and the room, the component is rendered again
    and the interval installed, and its first tick emits one message with
    the value the Owner then shows, the last one written. *)
Theorem staged_value_survives_disconnection o g_off g_on roomId b
    (acts : list action) :
  isOwner o = true →
  broadcasting o g_off = None → broadcasting o g_on = Some roomId →
  writes acts ≠ [] →
  emitted (run o g_off b acts).2 = []
  ∧ emitted (step o g_on (render o (run o g_off b acts).1) IntervalTick).2
    = [mkMessage roomId "entity:update" (entityId o)
         (state (b_hook (render o (run o g_off b acts).1)))].
Proof.
  intros Ho Hoff Hon Hw.
  destruct (run_owner_quiet o g_off acts b Ho (or_intror Hoff)) as [He Hh].
  split; [done|].
  destruct (exists_last Hw) as (calls & last & Hcalls).
  rewrite Hcalls in Hh.
  destruct (runUpdaters_owner o (b_hook (render o b)) calls last Ho)
    as [Hp Hs].
  rewrite <- Hh in Hp, Hs.
  cbn [step]. rewrite Hon. cbn [snd]. rewrite emitted_fmap.
  unfold broadcastTick. by rewrite Hp, Hs.
Qed.

Lemma staged_value_survives_disconnection_witness :
  emitted (run owner (mkGameSocket (Some "room-1") false) (start owner 1000)
             [Write (NewValue player_there); Render; IntervalTick;
              Write (NewValue player_renamed); IntervalTick]).2 = []
  ∧ emitted (step owner in_room
               (render owner
                  (run owner (mkGameSocket (Some "room-1") false)
                     (start owner 1000)
                     [Write (NewValue player_there); Render; IntervalTick;
                      Write (NewValue player_renamed); IntervalTick]).1)
               IntervalTick).2
    = [mkMessage "room-1" "entity:update" "player-1" (TObject player_renamed)].
Proof.
  apply (staged_value_survives_disconnection owner
           (mkGameSocket (Some "room-1") false) in_room "room-1"
           (start owner 1000)
           [Write (NewValue player_there); Render; IntervalTick;
            Write (NewValue player_renamed); IntervalTick]);
    [reflexivity..|discriminate].
Defined.

(** ** Coalescing *)

(** A call between two ticks whose updater React has not run when the
    second tick fires: the buffer is still empty and the tick emits
    nothing; the value leaves with the first tick after the render. *)
Lemma owner_tick_before_render :
  emitted (run owner in_room (start owner 1000)
             [IntervalTick; Write (NewValue player_there); IntervalTick]).2
  = []
  ∧ emitted (run owner in_room (start owner 1000)
               [IntervalTick; Write (NewValue player_there); IntervalTick;
                Render; IntervalTick]).2
    = [mkMessage "room-1" "entity:update" "player-1" (TObject player_there)].
Proof. split; by vm_compute. Qed.

(** C3: for an Owner whose interval is running, after one tick and then a
    sequence of actions without a tick in which [setNetworkState] is called
    with [calls] and then with [last] (so at least once), if React has run
    every queued updater by then, the next tick emits exactly one message;
    it carries the entityId and the value the last call resolved to. *)
Theorem owner_coalesces o g roomId b (acts : list action)
    (calls : list SetStateAction) (last : SetStateAction) :
  broadcasting o g = Some roomId →
  forallb (λ a, negb (is_interval_tick a)) acts = true →
  writes acts = (calls ++ [last])%list →
  let after_tick := (step o g b IntervalTick).1 in
  let before_tick := (run o g after_tick acts).1 in
  b_queue before_tick = [] →
  let before_last :=
    runUpdaters o (b_hook after_tick) (b_queue after_tick ++ calls) in
  emitted (run o g after_tick acts).2 = []
  ∧ emitted (step o g before_tick IntervalTick).2
    = [mkMessage roomId "entity:update" (entityId o)
         (TObject (resolve last (state before_last)))].
Proof.
  intros Hon Hacts Hcalls after_tick before_tick Hrun before_last.
  pose proof (broadcasting_owner _ _ _ Hon) as Ho.
  destruct (run_owner_quiet o g acts after_tick Ho (or_introl Hacts))
    as [He Hh].
  fold before_tick in Hh. split; [done|].
  assert (b_hook before_tick
          = runUpdaters o (b_hook after_tick)
              ((b_queue after_tick ++ calls) ++ [last])) as Hhook.
  { rewrite <- (assoc_L (++)%list), <- Hcalls, runUpdaters_app.
    change (runUpdaters o (b_hook after_tick) (b_queue after_tick))
      with (b_hook (render o after_tick)).
    rewrite <- Hh. cbn [render b_hook]. by rewrite Hrun. }
  destruct (runUpdaters_owner o (b_hook after_tick)
              (b_queue after_tick ++ calls) last Ho) as [Hp _].
  rewrite <- Hhook in Hp. fold before_last in Hp.
  cbn [step]. rewrite Hon. cbn [snd]. rewrite emitted_fmap.
  unfold broadcastTick. by rewrite Hp.
Qed.

Lemma owner_coalesces_witness :
  emitted (run owner in_room (step owner in_room (start owner 1000) IntervalTick).1
             [Write (NewValue player_renamed); Render;
              Write (Updater (λ _, player_here));
              Write (NewValue player_there); Render]).2
  = []
  ∧ emitted
      (step owner in_room
         (run owner in_room
            (step owner in_room (start owner 1000) IntervalTick).1
            [Write (NewValue player_renamed); Render;
             Write (Updater (λ _, player_here));
             Write (NewValue player_there); Render]).1
         IntervalTick).2
    = [mkMessage "room-1" "entity:update" "player-1" (TObject player_there)].
Proof.
  apply (owner_coalesces owner in_room "room-1" (start owner 1000)
           [Write (NewValue player_renamed); Render;
            Write (Updater (λ _, player_here));
            Write (NewValue player_there); Render]
           [NewValue player_renamed; Updater (λ _, player_here)]
           (NewValue player_there));
    reflexivity.
Defined.

(** ** From the Owner to an Observer *)

(** The tick that follows a call and the render that ran its updater. *)
Lemma owner_write_render_tick o g roomId b (n : SetStateAction) :
  broadcasting o g = Some roomId →
  emitted (run o g b [Write n; Render; IntervalTick]).2
  = [mkMessage roomId "entity:update" (entityId o)
       (TObject (resolve n (state (b_hook (render o b)))))].
Proof.
  intros Hon. pose proof (broadcasting_owner _ _ _ Hon) as Ho.
  cbn [run step fst snd]. rewrite Hon.
  cbn [fst snd app render setNetworkState b_hook b_queue].
  destruct (runUpdaters_owner o (b_hook b) (b_queue b) n Ho) as [Hp _].
  rewrite app_nil_r, emitted_fmap. unfold broadcastTick. by rewrite Hp.
Qed.

(** X12: an Observer that does not interpolate and is handed, under the
    relay's envelope, the message an Owner of the same entityId emits at
    the tick after a [setNetworkState] call and the render that ran its
    updater shows exactly the value the call resolved to. *)
Theorem snap_observer_shows_what_owner_wrote o_own g roomId b_own
    (n : SetStateAction) o_obs (now : float) h_obs :
  broadcasting o_own g = Some roomId →
  isOwner o_obs = false → enableInterpolation o_obs = false →
  entityId o_obs = entityId o_own →
  ∃ m,
    emitted (run o_own g b_own [Write n; Render; IntervalTick]).2 = [m]
    ∧ onEntityUpdate o_obs now h_obs (relayed m)
      = Returns (setState h_obs
                   (TObject (resolve n (state (b_hook (render o_own b_own)))))).
Proof.
  intros Hon Hobs Hsnap Hid.
  eexists. split; [by apply owner_write_render_tick|].
  unfold onEntityUpdate, relayed.
  cbn [event payload p_entityId p_state m_event m_entityId m_state].
  rewrite Hobs, Hsnap, Hid. by rewrite !bool_decide_eq_true_2.
Qed.

Lemma snap_observer_shows_what_owner_wrote_witness :
  ∃ m,
    emitted (run owner in_room (start owner 1000)
               [Write (NewValue player_there); Render; IntervalTick]).2
    = [m]
    ∧ onEntityUpdate observer_snap 2000 (mount observer_snap 1500) (relayed m)
      = Returns (setState (mount observer_snap 1500) (TObject player_there)).
Proof.
  apply (snap_observer_shows_what_owner_wrote owner in_room "room-1"
           (start owner 1000) (NewValue player_there) observer_snap 2000
           (mount observer_snap 1500)); reflexivity.
Defined.

(** X13: an interpolating Observer with a positive interval that is handed
    that message at time [T0] shows exactly the value the Owner's call
    resolved to at every frame whose time is at least [broadcastRate * 1.5]
    after [T0], whatever frames came before. *)
Theorem interpolating_observer_reaches_what_owner_wrote o_own g roomId b_own
    (n : SetStateAction) o_obs (T0 : float) h_obs (frames : list float)
    (now : float) :
  broadcasting o_own g = Some roomId →
  animating o_obs = true → entityId o_obs = entityId o_own →
  (0 <? broadcastRate o_obs)%float = true →
  truthy (state h_obs) = true →
  (broadcastRate o_obs * 1.5 <=? now - T0)%float = true →
  ∃ m h1 h2 h3,
    emitted (run o_own g b_own [Write n; Render; IntervalTick]).2 = [m]
    ∧ onEntityUpdate o_obs T0 h_obs (relayed m) = Returns h1
    ∧ animateAll o_obs frames h1 = Returns h2
    ∧ animate o_obs now h2 = Returns h3
    ∧ state h3 = TObject (resolve n (state (b_hook (render o_own b_own)))).
Proof.
  intros Hon [Hobs%negb_true_iff Hinterp]%andb_prop Hid Hrate Hstate Hlate.
  set (v := TObject (resolve n (state (b_hook (render o_own b_own))))).
  set (h1 := mkHook (state h_obs) v (state h_obs) T0 (pendingUpdateRef h_obs)).
  destruct (animateAll_cursor o_obs frames h1 Hstate eq_refl)
    as (h2 & Hrun & Htarget & _ & Hts).
  cbn [h1 targetStateRef lastUpdateTsRef] in Htarget, Hts.
  exists (mkMessage roomId "entity:update" (entityId o_own) v), h1, h2,
    (setState h2 v).
  split; [|split; [|split; [done|split; [|done]]]].
  - by apply owner_write_render_tick.
  - unfold onEntityUpdate, relayed.
    cbn [event payload p_entityId p_state m_event m_entityId m_state].
    rewrite Hobs, Hinterp, Hid. by rewrite !bool_decide_eq_true_2.
  - rewrite <- Htarget. apply animate_at_target; [done|]. by rewrite Hts.
Qed.

Lemma interpolating_observer_reaches_what_owner_wrote_witness :
  ∃ m h1 h2 h3,
    emitted (run owner in_room (start owner 1000)
               [Write (NewValue player_there); Render; IntervalTick]).2
    = [m]
    ∧ onEntityUpdate observer 2000 (mount observer 1500) (relayed m)
      = Returns h1
    ∧ animateAll observer [2016; 2075]%float h1 = Returns h2
    ∧ animate observer 2150 h2 = Returns h3
    ∧ state h3 = TObject player_there.
Proof.
  apply (interpolating_observer_reaches_what_owner_wrote owner in_room
           "room-1" (start owner 1000) (NewValue player_there) observer 2000
           (mount observer 1500) [2016; 2075]%float 2150); reflexivity.
Defined.

(** * The listener registry of the socket client *)

Module SocketClientFacts.
Import SocketClient.

Lemma notify_on_same event cb c :
  notifyListeners event (on event cb c)
  = set_add cb (notifyListeners event c).
Proof.
  unfold notifyListeners, on. case_bool_decide as Hin; cbn [listeners].
  - destruct Hin as [s Hs]. rewrite lookup_alter_eq, Hs. done.
  - apply eq_None_not_Some in Hin.
    rewrite lookup_alter_eq, lookup_insert_eq, Hin. done.
Qed.

Lemma notify_on_other event event' cb c :
  event ≠ event' →
  notifyListeners event' (on event cb c) = notifyListeners event' c.
Proof.
  intros Hne. unfold notifyListeners, on.
  case_bool_decide; cbn [listeners];
    by rewrite lookup_alter_ne, ?lookup_insert_ne.
Qed.

Lemma notify_off_same event cb c :
  notifyListeners event (off event cb c)
  = set_delete cb (notifyListeners event c).
Proof.
  unfold notifyListeners, off. cbn [listeners]. rewrite lookup_alter_eq.
  by destruct (listeners c !! event).
Qed.

Lemma notify_off_other event event' cb c :
  event ≠ event' →
  notifyListeners event' (off event cb c) = notifyListeners event' c.
Proof.
  intros Hne. unfold notifyListeners, off. cbn [listeners].
  by rewrite lookup_alter_ne.
Qed.

Lemma notify_NoDup event c :
  sets_have_no_duplicates c → NoDup (notifyListeners event c).
Proof.
  intros Hc. unfold notifyListeners.
  destruct (listeners c !! event) as [s|] eqn:E; [by eapply Hc|].
  apply NoDup_nil_2.
Qed.

Lemma set_add_NoDup cb s : NoDup s → NoDup (set_add cb s).
Proof.
  intros Hs. unfold set_add. case_bool_decide; [done|].
  apply NoDup_app. split; [done|]. split; [|apply NoDup_singleton].
  intros x Hx ->%list_elem_of_singleton. done.
Qed.

(** X14: after [on(event, cb)] the callback is called for the event, and
    once only, however often it was registered; registering it again
    changes nothing. *)
Theorem on_registers_once event cb c :
  sets_have_no_duplicates c →
  cb ∈ notifyListeners event (on event cb c)
  ∧ NoDup (notifyListeners event (on event cb c))
  ∧ on event cb (on event cb c) = on event cb c.
Proof.
  intros Hc. rewrite notify_on_same. split; [|split].
  - unfold set_add. case_bool_decide; [done|]. set_solver.
  - by apply set_add_NoDup, notify_NoDup.
  - assert (Hin : cb ∈ notifyListeners event (on event cb c)).
    { rewrite notify_on_same. unfold set_add. case_bool_decide; [done|].
      set_solver. }
    unfold notifyListeners in Hin.
    destruct (listeners (on event cb c) !! event) as [s|] eqn:E;
      [|by apply elem_of_nil in Hin].
    cbn [default] in Hin.
    unfold on at 1. rewrite bool_decide_eq_true_2 by (by exists s).
    destruct (on event cb c) as [sock ls]. cbn [listeners socket] in *.
    f_equal. apply map_eq. intros e.
    destruct (decide (e = event)) as [->|Hne].
    + rewrite lookup_alter_eq, E. cbn. unfold set_add.
      by rewrite bool_decide_eq_true_2.
    + by rewrite lookup_alter_ne.
Qed.

Lemma on_registers_once_witness :
  7%nat ∈ notifyListeners "chat" (on "chat" 7%nat (on "chat" 4%nat connected_fresh))
  ∧ NoDup (notifyListeners "chat" (on "chat" 7%nat (on "chat" 4%nat connected_fresh)))
  ∧ on "chat" 7%nat (on "chat" 7%nat (on "chat" 4%nat connected_fresh))
    = on "chat" 7%nat (on "chat" 4%nat connected_fresh).
Proof.
  apply (on_registers_once "chat" 7%nat (on "chat" 4%nat connected_fresh)).
  apply (bool_decide_unpack _). by vm_compute.
Defined.

(** X15: after [off(event, cb)] the callback is no longer called for the
    event, and the other callbacks of the event are called as before, in
    the same order. *)
Theorem off_unregisters event cb c :
  (cb ∉ notifyListeners event (off event cb c))
  ∧ (∀ cb', cb' ≠ cb →
       (cb' ∈ notifyListeners event (off event cb c)
        ↔ cb' ∈ notifyListeners event c))
  ∧ sublist (notifyListeners event (off event cb c)) (notifyListeners event c).
Proof.
  rewrite notify_off_same. unfold set_delete. split; [|split].
  - rewrite list_elem_of_filter. tauto.
  - intros cb' Hne. rewrite list_elem_of_filter. tauto.
  - apply sublist_filter.
Qed.

Lemma set_delete_add cb s : cb ∉ s → set_delete cb (set_add cb s) = s.
Proof.
  intros Hs. unfold set_add, set_delete.
  rewrite bool_decide_eq_false_2 by done.
  rewrite filter_app, filter_cons_False, filter_nil, app_nil_r by tauto.
  induction s as [|x s IH]; [done|].
  rewrite filter_cons_True by set_solver. f_equal. apply IH. set_solver.
Qed.

(** X16: registering a callback that was not registered and unregistering
    it again gives back the dispatch there was: every event calls the
    callbacks it called before. *)
Theorem on_off_round_trip event cb c :
  cb ∉ notifyListeners event c →
  ∀ event',
    notifyListeners event' (off event cb (on event cb c))
    = notifyListeners event' c.
Proof.
  intros Hfresh event'. destruct (decide (event = event')) as [<-|Hne].
  - rewrite notify_off_same, notify_on_same. by apply set_delete_add.
  - by rewrite notify_off_other, notify_on_other.
Qed.

Lemma on_off_round_trip_witness :
  notifyListeners "chat"
    (off "chat" 7%nat (on "chat" 7%nat (on "chat" 4%nat connected_fresh)))
  = notifyListeners "chat" (on "chat" 4%nat connected_fresh).
Proof.
  apply (on_off_round_trip "chat" 7%nat (on "chat" 4%nat connected_fresh)).
  apply (bool_decide_unpack _). by vm_compute.
Defined.

(** X17: [on] and [off] for one event leave the callbacks of every other
    event as they were. *)
Theorem registry_events_are_independent event event' cb c :
  event ≠ event' →
  notifyListeners event' (on event cb c) = notifyListeners event' c
  ∧ notifyListeners event' (off event cb c) = notifyListeners event' c.
Proof.
  intros Hne. by rewrite notify_on_other, notify_off_other.
Qed.

Lemma registry_events_are_independent_witness :
  notifyListeners "chat" (on "entity:update" 7%nat (on "chat" 4%nat connected_fresh))
  = notifyListeners "chat" (on "chat" 4%nat connected_fresh)
  ∧ notifyListeners "chat" (off "entity:update" 7%nat (on "chat" 4%nat connected_fresh))
    = notifyListeners "chat" (on "chat" 4%nat connected_fresh).
Proof.
  apply (registry_events_are_independent "entity:update" "chat").
  discriminate.
Defined.

(** X18: a callback that is the first to be registered for ['room:emit']
    while the client has a socket is called twice for every envelope the
    server sends whose own event name is not ['room:emit']: by the base
    listener, and by the forwarder that [on] attached to the socket for the
    same name. *)
Theorem room_emit_listener_runs_twice cb c s (data : CustomEvent) :
  socket c = Some s →
  listeners c !! "room:emit" = None →
  "room:emit" ∉ forwarders s →
  event data ≠ "room:emit" →
  receiveRoomEmit data (on "room:emit" cb c)
  = ([cb]
     ++ (if bool_decide (event data = "") then []
         else notifyListeners (event data) c)
     ++ [cb])%list.
Proof.
  intros Hs Hnone Hfw Hev.
  assert (Hgen : notifyListeners "room:emit" (on "room:emit" cb c) = [cb]).
  { rewrite notify_on_same. unfold notifyListeners. by rewrite Hnone. }
  unfold receiveRoomEmit, onRoomEmit. rewrite Hgen.
  rewrite (notify_on_other "room:emit" (event data)) by done.
  unfold on at 1. rewrite bool_decide_eq_false_2
    by (rewrite Hnone; by intros [? ?]).
  cbn [socket]. rewrite Hs. cbn [fmap option_fmap option_map forwarders].
  rewrite flat_map_app.
  assert (flat_map (λ e, if bool_decide (e = "room:emit") then [cb] else [])
            (forwarders s) = []) as ->.
  { induction (forwarders s) as [|e l IH]; [done|].
    cbn [flat_map]. rewrite bool_decide_eq_false_2 by set_solver.
    apply IH. set_solver. }
  cbn [flat_map app].
  rewrite (bool_decide_eq_true_2 ("room:emit" = "room:emit")) by reflexivity.
  cbn [app]. by rewrite ?app_nil_r.
Qed.

Lemma room_emit_listener_runs_twice_witness :
  receiveRoomEmit (entityUpdate (Some "player-1") (TObject player_there))
    (on "room:emit" 7%nat (on "entity:update" 4%nat connected_fresh))
  = [7%nat; 4%nat; 7%nat].
Proof.
  apply (room_emit_listener_runs_twice 7%nat
           (on "entity:update" 4%nat connected_fresh)
           (mkSocket ["entity:update"])
           (entityUpdate (Some "player-1") (TObject player_there)));
    [reflexivity | reflexivity | | discriminate].
  apply (bool_decide_unpack _). by vm_compute.
Defined.

(** Registered before the client has a socket, the callback gets no
    forwarder. *)
Example room_emit_listener_registered_early :
  socket (on "room:emit" 7%nat (mkClient None ∅)) = None.
Proof. reflexivity. Qed.

End SocketClientFacts.

(** * The provider's state *)

Module GameSocketContextFacts.
Import GameSocketContext.

Lemma memberIds_withMembers r ms :
  memberIds (Some (withMembers r ms)) = userId <$> ms.
Proof. done. Qed.

Lemma withMembers_twice r ms ms' :
  withMembers (withMembers r ms) ms' = withMembers r ms'.
Proof. done. Qed.

Lemma withMembers_same r ms : members r = Some ms → withMembers r ms = r.
Proof. destruct r. cbn. by intros ->. Qed.

(** The member list after a join: as before if the user is in it, else
    with the user appended. *)
Lemma newMembers_join now data ms :
  pe_event data = "join" →
  (pe_userId data ∈ (userId <$> ms) ∧ newMembers now data ms = ms)
  ∨ ((pe_userId data ∉ (userId <$> ms))
     ∧ newMembers now data ms
       = (ms ++ [mkMember (pe_userId data) "" (pe_isAdmin data) now
                   (pe_peerId data)])%list).
Proof.
  intros Hjoin. unfold newMembers. rewrite bool_decide_eq_true_2 by done.
  destruct (list_find _ ms) as [[i m]|] eqn:E.
  - left. split; [|done]. apply list_find_Some in E as (Hi & <- & _).
    apply list_elem_of_fmap. exists m. split; [done|].
    by eapply list_elem_of_lookup_2.
  - right. split; [|done]. apply list_find_None in E.
    rewrite list_elem_of_fmap. intros (m & Hm & Hin).
    by eapply (proj1 (Forall_forall _ _) E m).
Qed.

Lemma filter_all {A} (P : A → Prop) `{!∀ x, Decision (P x)} (l : list A) :
  Forall P l → filter P l = l.
Proof.
  induction 1 as [|x l Hx Hl IH]; [done|].
  by rewrite filter_cons_True, IH.
Qed.

(** The member list after a leave, when no user id is there twice: the
    members with another user id, in their order. *)
Lemma newMembers_leave now data ms :
  pe_event data = "leave" → NoDup (userId <$> ms) →
  newMembers now data ms = filter (λ m, userId m ≠ pe_userId data) ms.
Proof.
  intros Hleave Hdup. unfold newMembers.
  rewrite bool_decide_eq_false_2 by (rewrite Hleave; discriminate).
  rewrite bool_decide_eq_true_2 by done.
  induction ms as [|m ms IH]; [done|].
  rewrite fmap_cons in Hdup. apply NoDup_cons in Hdup as [Hm Hdup].
  cbn [list_find]. case_decide as Hu.
  - rewrite filter_cons_False by (intros H; by apply H). cbn.
    symmetry. apply filter_all, Forall_forall. intros m' Hm' Heq.
    apply Hm. rewrite Hu, <- Heq. by apply list_elem_of_fmap_2.
  - rewrite filter_cons_True by done. specialize (IH Hdup).
    rewrite <- IH. by destruct (list_find _ ms) as [[i m']|].
Qed.

Lemma presenceUpdate_memberIds now data prev :
  memberIds (presenceUpdate now data prev)
  = memberIds prev
  ∨ ∃ r, prev = Some r
      ∧ memberIds (presenceUpdate now data prev)
        = userId <$> newMembers now data (default [] (members r)).
Proof.
  destruct prev as [r|]; [|by left]. cbn [presenceUpdate].
  case_bool_decide; [by left|]. right. by exists r.
Qed.

(** X19: a presence event keeps the user ids of the current room's
    members distinct: a join of a user who is already a member adds
    nothing. *)
Theorem presence_keeps_member_ids_distinct now data prev :
  NoDup (memberIds prev) → NoDup (memberIds (presenceUpdate now data prev)).
Proof.
  intros Hdup.
  destruct (presenceUpdate_memberIds now data prev) as [->|(r & -> & ->)];
    [done|].
  unfold memberIds in Hdup. cbn [mbind option_bind] in Hdup.
  set (ms := default [] (members r)) in *.
  destruct (decide (pe_event data = "join")) as [Hjoin|Hjoin].
  - destruct (newMembers_join now data ms Hjoin) as [[_ ->]|[Hnew ->]];
      [done|].
    rewrite fmap_app. apply NoDup_app. split; [done|].
    split; [|apply NoDup_singleton].
    by intros u Hu ->%list_elem_of_singleton.
  - unfold newMembers. rewrite bool_decide_eq_false_2 by done.
    case_bool_decide; [|done].
    destruct (list_find _ ms) as [[i m]|]; [|done].
    rewrite list_fmap_delete. eapply sublist_NoDup; [exact Hdup|].
    apply sublist_delete.
Qed.

Lemma presence_keeps_member_ids_distinct_witness :
  NoDup (memberIds (presenceUpdate 2000 (join_of "bob") (Some sample_room))).
Proof.
  apply (presence_keeps_member_ids_distinct 2000 (join_of "bob")
           (Some sample_room)).
  apply (bool_decide_unpack _). by vm_compute.
Defined.

(** X20: a join is idempotent: the same user joining again, at whatever
    time, leaves the room as the first join made it. *)
Theorem join_is_idempotent now now' data prev :
  pe_event data = "join" →
  presenceUpdate now' data (presenceUpdate now data prev)
  = presenceUpdate now data prev.
Proof.
  intros Hjoin. destruct prev as [r|]; [|done]. cbn [presenceUpdate].
  case_bool_decide as Hroom.
  - cbn [presenceUpdate]. by rewrite bool_decide_eq_true_2.
  - cbn [presenceUpdate roomId withMembers members default id].
    rewrite bool_decide_eq_false_2 by (intros H; by apply H). f_equal.
    rewrite withMembers_twice. f_equal.
    set (ms := default [] (members r)).
    destruct (newMembers_join now' data (newMembers now data ms) Hjoin)
      as [[_ ->]|[Hnot _]]; [done|].
    exfalso. apply Hnot.
    destruct (newMembers_join now data ms Hjoin) as [[Hin ->]|[_ ->]];
      [done|].
    rewrite fmap_app. set_solver.
Qed.

Lemma join_is_idempotent_witness :
  presenceUpdate 3000 (join_of "cid")
    (presenceUpdate 2000 (join_of "cid") (Some sample_room))
  = presenceUpdate 2000 (join_of "cid") (Some sample_room).
Proof.
  apply (join_is_idempotent 2000 3000 (join_of "cid") (Some sample_room)).
  reflexivity.
Defined.

(** X21: a user who was not a member joins and leaves: the room is again
    what it was. *)
Theorem join_then_leave_restores now now' join leave r ms :
  members r = Some ms → roomId r = pe_roomId join →
  pe_roomId leave = pe_roomId join → pe_userId leave = pe_userId join →
  pe_event join = "join" → pe_event leave = "leave" →
  pe_userId join ∉ (userId <$> ms) →
  presenceUpdate now' leave (presenceUpdate now join (Some r)) = Some r.
Proof.
  intros Hms Hroom Hroom' Huser Hjoin Hleave Hfresh.
  cbn [presenceUpdate]. rewrite bool_decide_eq_false_2 by (by intros []).
  cbn [presenceUpdate roomId withMembers members default id].
  rewrite bool_decide_eq_false_2 by (rewrite Hroom'; by intros []).
  rewrite Hms. cbn [default]. unfold id. f_equal.
  destruct (newMembers_join now join ms Hjoin) as [[Hin _]|[_ ->]]; [done|].
  unfold newMembers.
  rewrite bool_decide_eq_false_2 by (rewrite Hleave; discriminate).
  rewrite bool_decide_eq_true_2 by done.
  assert (Hnone : list_find (λ m, userId m = pe_userId leave) ms = None).
  { apply list_find_None, Forall_forall. intros m Hm Heq.
    apply Hfresh. rewrite <- Huser, <- Heq. by apply list_elem_of_fmap_2. }
  rewrite (list_find_app_r _ _ _ Hnone). cbn [list_find].
  rewrite decide_True by done. cbn.
  rewrite withMembers_twice, (delete_middle ms []), app_nil_r.
  by apply withMembers_same.
Qed.

Lemma join_then_leave_restores_witness :
  presenceUpdate 3000 (leave_of "cid")
    (presenceUpdate 2000 (join_of "cid") (Some sample_room))
  = Some sample_room.
Proof.
  apply (join_then_leave_restores 2000 3000 (join_of "cid") (leave_of "cid")
           sample_room
           [mkMember "ann" "s1" true 1000 None;
            mkMember "bob" "s2" false 1100 (Some "peer-bob")]);
    try reflexivity.
  apply (bool_decide_unpack _). by vm_compute.
Defined.

(** X22: when no user id is twice among the members, a leave for the
    current room removes the user and keeps every other member, in order. *)
Theorem leave_removes_the_member now data r :
  roomId r = pe_roomId data → pe_event data = "leave" →
  NoDup (memberIds (Some r)) →
  presenceUpdate now data (Some r)
  = Some (withMembers r
            (filter (λ m, userId m ≠ pe_userId data) (default [] (members r)))).
Proof.
  intros Hroom Hleave Hdup. cbn [presenceUpdate].
  rewrite bool_decide_eq_false_2 by (by intros []).
  by rewrite newMembers_leave.
Qed.

Lemma leave_removes_the_member_witness :
  presenceUpdate 3000 (leave_of "ann") (Some sample_room)
  = Some (withMembers sample_room
            [mkMember "bob" "s2" false 1100 (Some "peer-bob")]).
Proof.
  rewrite (leave_removes_the_member 3000 (leave_of "ann") sample_room);
    [reflexivity | reflexivity | reflexivity |].
  apply (bool_decide_unpack _). by vm_compute.
Defined.

(** With the same user id twice among the members, a leave removes the
    first of the two only. *)
Example leave_removes_first_only :
  memberIds
    (presenceUpdate 3000 (leave_of "bob")
       (Some (withMembers sample_room
                [mkMember "bob" "s2" false 1100 None;
                 mkMember "ann" "s1" true 1000 None;
                 mkMember "bob" "s3" false 1200 None])))
  = ["ann"; "bob"].
Proof. reflexivity. Qed.

(** X23: presence events never change the room id and the connection
    flag the hooks read, so they change neither whether a binding is
    subscribed nor where an Owner broadcasts. *)
Theorem presence_keeps_the_room now data st o :
  value (handlePresence now data st) = value st
  ∧ subscribed (value (handlePresence now data st)) = subscribed (value st)
  ∧ broadcasting o (value (handlePresence now data st))
    = broadcasting o (value st).
Proof.
  assert (value (handlePresence now data st) = value st) as ->; [|done].
  unfold value, handlePresence. cbn [currentRoom connectionStatus]. f_equal.
  destruct (currentRoom st) as [r|]; [|done]. cbn [presenceUpdate].
  by case_bool_decide.
Qed.

(** X24: after the transport's disconnect, and after a leave the server
    acknowledged, no binding is subscribed and no Owner broadcasts: timer
    ticks and inbound events, however many, leave every binding as it is
    and nothing is emitted or thrown. *)
Theorem disconnect_and_leave_stop_the_engine st o b acts :
  forallb (λ a, is_inbound a || is_interval_tick a) acts = true →
  run o (value (handleDisconnect st)) b acts = (b, [])
  ∧ run o (value (leaveRoom true st).1) b acts = (b, []).
Proof.
  intros Hacts.
  assert (Hstop : ∀ conn, run o (mkGameSocket None conn) b acts = (b, [])).
  { intros conn.
    assert (Hb : broadcasting o (mkGameSocket None conn) = None).
    { unfold broadcasting. cbn. by destruct (isOwner o && conn). }
    induction acts as [|a acts IH]; [done|].
    cbn [forallb] in Hacts. apply andb_prop in Hacts as [Ha Hacts].
    cbn [run].
    assert (step o (mkGameSocket None conn) b a = (b, [])) as ->.
    { destruct a as [n|now data| |now|]; cbn [step]; try done.
      by rewrite Hb. }
    cbn. by rewrite (IH Hacts). }
  split; [apply Hstop|].
  unfold leaveRoom, value.
  destruct (currentRoom st) eqn:E; cbn; [|rewrite E]; apply Hstop.
Qed.

Lemma disconnect_and_leave_stop_the_engine_witness :
  (run owner (value joined_state) owner_with_pending tick_inbound_tick).2
    = [Emitted (mkMessage "room-1" "entity:update" "player-1"
                  (TObject player_there))]
  ∧ run owner (value (handleDisconnect joined_state)) owner_with_pending
      tick_inbound_tick
    = (owner_with_pending, [])
  ∧ run owner (value (leaveRoom true joined_state).1) owner_with_pending
      tick_inbound_tick
    = (owner_with_pending, []).
Proof.
  split; [reflexivity|].
  apply (disconnect_and_leave_stop_the_engine joined_state owner
           owner_with_pending tick_inbound_tick).
  reflexivity.
Defined.

(** X25: whatever the REST listing gives (the room, a list without it, a
    failure), the room stored after a successful join has the requested
    id, and a connected Owner then broadcasts to it. *)
Theorem join_stores_the_requested_room room me myPeerId created joined rest
    st o :
  connected (connectionStatus st) = true → isOwner o = true →
  roomId (joinedRoom room me myPeerId created joined rest) = room
  ∧ broadcasting o
      (value (setCurrentRoom
                (Some (joinedRoom room me myPeerId created joined rest)) st))
    = Some room.
Proof.
  intros Hconn Ho.
  assert (Hid : roomId (joinedRoom room me myPeerId created joined rest) = room).
  { unfold joinedRoom. destruct rest as [roomList|]; [|done].
    destruct (list_find _ roomList) as [[i r]|] eqn:E; [|done].
    by apply list_find_Some in E as (_ & ? & _). }
  split; [done|].
  unfold broadcasting, value. cbn. by rewrite Ho, Hconn, Hid.
Qed.

Lemma join_stores_the_requested_room_witness :
  roomId (joinedRoom "room-1" (Some "cid") None 2000 2001 ListFailed)
    = "room-1"
  ∧ broadcasting owner
      (value (setCurrentRoom
                (Some (joinedRoom "room-1" (Some "cid") None 2000 2001
                         ListFailed))
                (handleConnect (Some "s1") initial)))
    = Some "room-1".
Proof.
  apply (join_stores_the_requested_room "room-1" (Some "cid") None 2000 2001
           ListFailed (handleConnect (Some "s1") initial) owner);
    reflexivity.
Defined.

End GameSocketContextFacts.
